(** * Audience resolution and queue scheduling of the push plugin

    A shallow embedding of [plugins/push/api/send/audience.js]:
    the filter compiler [Audience.steps], the two date mappers
    ([PlainApiMapper], [CohortsEventsMapper]) with their base class
    [Mapper], the scheduling loop [SchedulePusher.run] and the
    cancellation operation [Popper.clear].

    JavaScript documents are modelled as a small tree type [value];
    objects keep their keys in insertion order.  Numbers are the
    integers (milliseconds, minutes, counters).  Asynchronous code is
    modelled sequentially: an [await] is a call that may throw. *)

From Stdlib Require Import ZArith Ascii String List Bool Lia.
From Stdlib Require Import DecimalString.
Import ListNotations.
Local Open Scope string_scope.
Local Open Scope list_scope.
Local Open Scope Z_scope.
Set Warnings "-register-all".

(** ** JavaScript values *)

Inductive value : Type :=
| VUndefined
| VNull
| VBool (b : bool)
| VNum (n : Z)
| VStr (s : string)
| VOid (hex : string)
| VArr (items : list value)
| VObj (props : list (string * value)).

(** An object: its own enumerable string keys, in insertion order (keys
    that are not array indices). *)
Definition obj : Type := list (string * value).

(** ToBoolean. *)
Definition truthy (v : value) : bool :=
  match v with
  | VUndefined | VNull => false
  | VBool b => b
  | VNum n => negb (n =? 0)
  | VStr s => negb (String.eqb s "")
  | VOid _ | VArr _ | VObj _ => true
  end.

(** [o[k]] on an object. *)
Fixpoint lookup (k : string) (o : obj) : value :=
  match o with
  | [] => VUndefined
  | (k', v) :: rest => if String.eqb k k' then v else lookup k rest
  end.

(** [k in o] for own keys. *)
Fixpoint has_key (k : string) (o : obj) : bool :=
  match o with
  | [] => false
  | (k', _) :: rest => String.eqb k k' || has_key k rest
  end.

(** [o[k] = v]: an existing key keeps its position, a new one goes last. *)
Fixpoint assign (k : string) (v : value) (o : obj) : obj :=
  match o with
  | [] => [(k, v)]
  | (k', v') :: rest =>
      if String.eqb k k' then (k, v) :: rest else (k', v') :: assign k v rest
  end.

(** [delete o[k]]. *)
Fixpoint remove (k : string) (o : obj) : obj :=
  match o with
  | [] => []
  | (k', v') :: rest =>
      if String.eqb k k' then remove k rest else (k', v') :: remove k rest
  end.

(** [Object.keys(o)]. *)
Definition keys (o : obj) : list string := map fst o.

(** [v.k] on a value that is not null or undefined: only objects carry the
    keys of this model. *)
Definition prop (k : string) (v : value) : value :=
  match v with
  | VObj o => lookup k o
  | _ => VUndefined
  end.

(** ToString, as used by string concatenation. *)
Fixpoint to_string (v : value) : string :=
  match v with
  | VUndefined => "undefined"
  | VNull => "null"
  | VBool true => "true"
  | VBool false => "false"
  | VNum n => NilZero.string_of_int (Z.to_int n)
  | VStr s => s
  | VOid hex => hex
  | VArr l =>
      (fix join (l : list value) : string :=
         match l with
         | [] => ""
         | [x] => match x with VUndefined | VNull => "" | _ => to_string x end
         | x :: rest =>
             String.append
              (match x with VUndefined | VNull => "" | _ => to_string x end)
              (String.append "," (join rest))
         end) l
  | VObj _ => "[object Object]"
  end.

(** [v.length]. Arrays and strings have one of their own; an object has
    the one it stores under the key [length], if any. *)
Definition js_length (v : value) : value :=
  match v with
  | VArr l => VNum (Z.of_nat (length l))
  | VStr s => VNum (Z.of_nat (String.length s))
  | VObj o => lookup "length" o
  | _ => VUndefined
  end.

Definition is_space (c : Ascii.ascii) : bool :=
  let n := Ascii.nat_of_ascii c in
  Nat.eqb n 32 || (Nat.leb 9 n && Nat.leb n 13).

Fixpoint trim_left (s : string) : string :=
  match s with
  | String c rest => if is_space c then trim_left rest else s
  | EmptyString => EmptyString
  end.

Fixpoint trim_right (s : string) : string :=
  match s with
  | String c rest =>
      match trim_right rest with
      | EmptyString => if is_space c then EmptyString else String c EmptyString
      | rest' => String c rest'
      end
  | EmptyString => EmptyString
  end.

Definition digits_to_number (s : string) : option Z :=
  match NilZero.uint_of_string s with
  | Some u => Some (Z.of_uint u)
  | None => None
  end.

(** ToNumber of a string, for the spellings of integers in decimal
    digits; [None] is NaN. Fractions, exponents, other radixes and
    [Infinity] lie outside the integers of this model. *)
Definition string_to_number (s : string) : option Z :=
  match trim_left (trim_right s) with
  | EmptyString => Some 0
  | String "+"%char rest => digits_to_number rest
  | String "-"%char rest => option_map Z.opp (digits_to_number rest)
  | t => digits_to_number t
  end.

(** ToNumber; [None] is NaN. *)
Definition to_number (v : value) : option Z :=
  match v with
  | VUndefined => None
  | VNull => Some 0
  | VBool true => Some 1
  | VBool false => Some 0
  | VNum n => Some n
  | VStr s => string_to_number s
  | VOid hex => string_to_number hex
  | VArr _ => string_to_number (to_string v)
  | VObj _ => None
  end.

(** The one-character strings of a string. *)
Fixpoint chars (s : string) : list value :=
  match s with
  | String c rest => VStr (String c EmptyString) :: chars rest
  | EmptyString => []
  end.

(** The values [v[0]], [v[1]], .. that [for (i = 0; i < v.length; i++)]
    visits. *)
Definition items (v : value) : list value :=
  match v with
  | VArr l => l
  | VStr s => chars s
  | VObj o =>
      match to_number (lookup "length" o) with
      | Some n =>
          map (fun i => lookup (to_string (VNum (Z.of_nat i))) o)
              (seq 0 (Z.to_nat n))
      | None => []
      end
  | _ => []
  end.

(** ** Outcomes of a call *)

Inductive error : Type :=
| TypeError (msg : string)
| PushError (msg : string)
| Rejected (reason : value).

Inductive outcome (A : Type) : Type :=
| Returned (a : A)
| Threw (e : error).
Arguments Returned {A} a.
Arguments Threw {A} e.

(** ** Data of the push plugin *)

Inductive TriggerKind : Type := API | Plain | Cohort | Event.

Record Trigger : Type := mkTrigger {
  kind : TriggerKind;
  start : Z;                 (* Date, as ms *)
  tz : bool;
  sctz : Z;                  (* minutes *)
  time : option Z;           (* ms since local midnight; None is null/undefined *)
  reschedule : bool;
  delay : option Z;          (* ms; None is undefined *)
  trigger_end : option Z     (* [end]: Date, as ms; None is undefined *)
}.

Record Filter : Type := mkFilter {
  geos : list value;
  cohorts : list value;
  user : option obj;         (* None is undefined *)
  drill : option obj         (* None is undefined *)
}.

Record Message : Type := mkMessage {
  _id : value;
  platforms : list string;
  filter : Filter;
  userFields : value
}.

Record App : Type := mkApp {
  app_id : value;            (* [_id] *)
  timezone : string
}.

(** A document of [app_users]: the fields the mappers read. *)
Record AppUser : Type := mkUser {
  uid : value;
  user_tz : option Z;        (* [tz], minutes; None is undefined or null *)
  user_tk : option obj       (* [user[TK]]; None is undefined *)
}.

(** What the process and its libraries supply to the mappers. *)
Record Host : Type := mkHost {
  now : Z;                           (* Date.now() *)
  getTimezoneOffset : Z;             (* new Date().getTimezoneOffset() *)
  localMidnight : Z -> Z;            (* setHours(0), setMinutes(0),
                                        setSeconds(0), setMilliseconds(0)
                                        of new Date(d), then getTime() *)
  utcOffset : string -> Z;           (* momenttz.tz(zone).utcOffset() *)
  oidWithDate : Z -> value           (* common.db.oidWithDate *)
}.

(** [x || 0] on a number. *)
Definition or0 (x : Z) : Z := if x =? 0 then 0 else x.

(** ** Mappers *)

Record Mapper : Type := mkMapper {
  offset : Z;
  mapper_message : Message;
  mapper_trigger : Trigger;
  p : string;
  f : string
}.

Definition pf (this : Mapper) : string := String.append (p this) (f this).

(** [constructor(app, message, trigger, p, f)]. *)
Definition Mapper_new (h : Host) (app : App) (message : Message)
    (trigger : Trigger) (p f : string) : Mapper :=
  mkMapper (utcOffset h (timezone app)) message trigger p f.

(** The object [ret] of [Mapper.map]: the literal, then [ret.c = c] when
    [c] is truthy. [tokens] is [user[TK]]. *)
Definition Mapper_ret (h : Host) (this : Mapper) (user : AppUser) (date : Z)
    (pr c : value) (tokens : obj) : obj :=
  let ret := [("_id", oidWithDate h date);
              ("m", _id (mapper_message this));
              ("p", VStr (p this));
              ("f", VStr (f this));
              ("u", uid user);
              ("t", lookup (pf this) tokens);
              ("pr", pr)] in
  if truthy c then assign "c" c ret else ret.

(** [Mapper.map(user, date, pr, c)]: [ret] is built, and the function
    ends with [return c]. Reading [user[TK][this.pf]] throws when
    [user[TK]] is undefined. *)
Definition Mapper_map (h : Host) (this : Mapper) (user : AppUser) (date : Z)
    (pr c : value) : outcome value :=
  match user_tk user with
  | None => Threw (TypeError "Cannot read properties of undefined")
  | Some tokens =>
      let ret := Mapper_ret h this user date pr c tokens in
      Returned c
  end.

(** [utz]: the user's offset, else the app's, in ms. *)
Definition utz (this : Mapper) (user : AppUser) : Z :=
  (match user_tz user with
   | None => or0 (offset this)
   | Some t => or0 t
   end) * 60000.

(** [PlainApiMapper.map(user, date, c)]. It ends with
    [super.map(user, d, c)]: the override lands in the parameter [pr] and
    the parameter [c] of [Mapper.map] is undefined. *)
Definition PlainApiMapper_map (h : Host) (this : Mapper) (user : AppUser)
    (date : Z) (c : value) : outcome value :=
  let d := date in
  let d := if tz (mapper_trigger this)
           then date - sctz (mapper_trigger this) * 60000 - utz this user
           else d in
  Mapper_map h this user d c VUndefined.

(** [inTz] of [CohortsEventsMapper.map]. *)
Definition inTz (h : Host) (this : Mapper) (user : AppUser) (d t : Z) : Z :=
  localMidnight h d + t + or0 (getTimezoneOffset h) * 60000 - utz this user.

(** The first part of [CohortsEventsMapper.map], up to the delay: [None]
    is the [return null] of a missed window. *)
Definition CohortsEventsMapper_instant (h : Host) (this : Mapper)
    (user : AppUser) (date : Z) : option Z :=
  let d := date in
  let scheduled :=
    match time (mapper_trigger this) with
    | Some t =>
        let inTz := inTz h this user d t in
        if inTz <? now h then
          if reschedule (mapper_trigger this)
          then Some (inTz + 24 * 60 * 60000)
          else None
        else Some inTz
    | None => Some d
    end in
  match scheduled with
  | None => None
  | Some d =>
      match delay (mapper_trigger this) with
      | Some dl => if negb (dl =? 0) then Some (d + dl) else Some d
      | None => Some d
      end
  end.

(** [CohortsEventsMapper.map(user, date, c)]: the expiry test on the
    instant, then [super.map(user, d, c)]. *)
Definition CohortsEventsMapper_map (h : Host) (this : Mapper) (user : AppUser)
    (date : Z) (c : value) : outcome value :=
  match CohortsEventsMapper_instant h this user date with
  | None => Returned VNull
  | Some d =>
      match trigger_end (mapper_trigger this) with
      | Some e => if e <? d then Returned VNull
                  else Mapper_map h this user d c VUndefined
      | None => Mapper_map h this user d c VUndefined
      end
  end.

(** ** The audience, its collaborators and the calls they receive *)

(** Calls that leave the process, in the order they are made. *)
Inductive call : Type :=
| DbFind (collection : string) (query : value)
| DbAggregate (collection : string) (pipeline : list value)
| DbDeleteMany (collection : string) (query : value)
| DbInsertMany (collection : string) (docs : list value)
| MessageUpdate (update : value)
| GeoQuery (app : value) (geo : value)
| DrillPreprocess (query : value)
| DrillFetchUsers (params : value).

(** The Geolocations plugin api, [geo()]. *)
Record GeoApi : Type := mkGeo {
  conds : value -> value;
  geo_query : value -> value -> outcome value        (* [query], async *)
}.

(** The Drill plugin api, [drill()]. [fetchUsers] hands [(err, uids)] to
    its callback. *)
Record DrillApi : Type := mkDrill {
  preprocessQuery : obj -> obj;                      (* edits its argument *)
  fetchUsers : value -> value * value
}.

(** Everything outside [audience.js]. *)
Record World : Type := mkWorld {
  host : Host;
  fields : list string -> bool -> list string;       (* ./platforms *)
  platform_fields : string -> option (list string);
                        (* Object.values(PLATFORM[p].FIELDS); None when
                           PLATFORM[p] is undefined *)
  queue_insert_batch : Z;                            (* DEFAULTS *)
  triggerPlain : Message -> option Trigger;          (* message.triggerPlain() *)
  geo_plugin : option GeoApi;
  drill_plugin : option DrillApi;
  db_find : string -> value -> outcome (list value); (* find(..).toArray() *)
  db_aggregate : string -> list value -> outcome (list AppUser);
  db_insertMany : string -> list value -> outcome unit;
  initTimeObj : string -> Z -> value                 (* common.initTimeObj *)
}.

(** The objects the code shares and edits in place, and the stores. *)
Record State : Type := mkState {
  message : Message;               (* audience.message *)
  app : option App;                (* audience.app; None is undefined *)
  queue : list value;              (* collection [push] *)
  processed : Z;                   (* message.result.processed, in memory *)
  responses : list (string * string * Z);  (* message.result.response calls *)
  trace : list call
}.

Definition M (A : Type) : Type := State -> outcome A * State.

Definition ret {A : Type} (a : A) : M A := fun s => (Returned a, s).

Definition bind {A B : Type} (c : M A) (k : A -> M B) : M B :=
  fun s =>
    match c s with
    | (Returned a, s') => k a s'
    | (Threw e, s') => (Threw e, s')
    end.

Definition throw {A : Type} (e : error) : M A := fun s => (Threw e, s).

Definition get : M State := fun s => (Returned s, s).

Definition put (s : State) : M unit := fun _ => (Returned tt, s).

Notation "x <- c ;; k" := (bind c (fun x => k))
  (at level 61, c at next level, right associativity).
Notation "c ;; k" := (bind c (fun _ => k))
  (at level 61, right associativity).

(** Record a call on the trace. *)
Definition emit (c : call) : M unit :=
  fun s => (Returned tt,
            mkState (message s) (app s) (queue s) (processed s) (responses s)
                    (trace s ++ [c])).

(** [await] of a call whose result the world decides. *)
Definition await {A : Type} (c : call) (r : outcome A) : M A :=
  emit c ;;
  match r with
  | Returned a => ret a
  | Threw e => throw e
  end.

(** [this.app], about to be dereferenced. *)
Definition this_app : M App :=
  s <- get ;;
  match app s with
  | Some a => ret a
  | None => throw (TypeError "Cannot read properties of undefined")
  end.

Definition set_filter (fl : Filter) : M unit :=
  fun s => (Returned tt,
            mkState (mkMessage (_id (message s)) (platforms (message s)) fl
                               (userFields (message s)))
                    (app s) (queue s) (processed s) (responses s) (trace s)).

(** The object [this.message.filter.user], which [steps] edits in place. *)
Definition the_query : M obj :=
  s <- get ;;
  match user (filter (message s)) with
  | Some q => ret q
  | None => ret []
  end.

Definition edit_query (g : obj -> obj) : M unit :=
  s <- get ;;
  let fl := filter (message s) in
  match user fl with
  | Some q => set_filter (mkFilter (geos fl) (cohorts fl) (Some (g q)) (drill fl))
  | None => ret tt
  end.

(** The object [this.message.filter.drill]. *)
Definition edit_drill (g : obj -> obj) : M unit :=
  s <- get ;;
  let fl := filter (message s) in
  match drill fl with
  | Some q => set_filter (mkFilter (geos fl) (cohorts fl) (user fl) (Some (g q)))
  | None => ret tt
  end.

(** [{$match: body}] and [{$project: body}]. *)
Definition match_step (body : value) : value := VObj [("$match", body)].
Definition project_step (body : value) : value := VObj [("$project", body)].

Definition is_nil {A : Type} (l : list A) : bool :=
  match l with [] => true | _ => false end.

(** [regions.map(g => geo().conds(g))] wrapped in [{$or: ..}]. *)
Definition geo_or (g : GeoApi) (regions : list value) : value :=
  VObj [("$or", VArr (map (conds g) regions))].

(** ** [Audience] *)

(** [filterMessage(min)]. An [Audience] has the properties [log],
    [message] and [app]: [this.db] is undefined, so evaluating
    [this.db.ObjectID] throws before [min] is edited. *)
Definition filterMessage (W : World) (min : value) : M (list value) :=
  let query :=
    if truthy (prop "$in" min) || truthy (prop "$nin" min)
    then min else VObj [("$in", min)] in
  (if truthy (prop "$in" min)
   then throw (TypeError "Cannot read properties of undefined")
   else ret tt) ;;
  (if truthy (prop "$nin" min)
   then throw (TypeError "Cannot read properties of undefined")
   else ret tt) ;;
  let query :=
    if truthy (prop "$nin" min)
    then VObj [("$or",
                VArr [VObj [("msgs", VObj [("$elemMatch", VObj [("0", query)])])];
                      VObj [("msgs", VObj [("$exists", VBool false)])]])]
    else VObj [("msgs", VObj [("$elemMatch", VObj [("0", query)])])] in
  a <- this_app ;;
  let collection := String.append "push_" (to_string (app_id a)) in
  await (DbFind collection query) (db_find W collection query).

(** The key [chr.<id>.in] of a cohort-membership marker. *)
Definition marker (id : value) : string :=
  String.append "chr." (String.append (to_string id) ".in").

(** [ids.forEach(id => { o[marker id] = v })], also the two [for] loops of
    the drill block. *)
Definition mark_all (v : value) (ids : list value) (o : obj) : obj :=
  fold_left (fun acc id => assign (marker id) v acc) ids o.

(** The block [// Geos] of [steps]. *)
Definition steps_geos (W : World) (steps : list value) : M (list value) :=
  s <- get ;;
  let ids := geos (filter (message s)) in
  if negb (is_nil ids) then
    match geo_plugin W with
    | Some g =>
        let query := VObj [("_id", VObj [("$in", VArr ids)])] in
        regions <- await (DbFind "geos" query) (db_find W "geos" query) ;;
        ret (steps ++ [match_step (geo_or g regions)])
    | None => ret steps
    end
  else ret steps.

(** The block [// Cohorts] of [steps]. *)
Definition steps_cohorts (steps : list value) : M (list value) :=
  s <- get ;;
  let ids := cohorts (filter (message s)) in
  if negb (is_nil ids) then
    let chr := mark_all (VStr "true") ids [] in
    ret (steps ++ [match_step (VObj chr)])
  else ret steps.

(** [if (query.message) { .. }] of the block [// User query]. *)
Definition steps_user_message (W : World) (steps : list value)
  : M (list value) :=
  query <- the_query ;;
  if truthy (lookup "message" query) then
    filtered <- filterMessage W (lookup "message" query) ;;
    edit_query (remove "message") ;;
    ret (steps ++
         [match_step (VObj [("uid", VObj [("$in", VArr filtered)])])])
  else ret steps.

(** [if (query.geo) { .. }] of the block [// User query]. *)
Definition steps_user_geo (W : World) (steps : list value)
  : M (list value) :=
  query <- the_query ;;
  if truthy (lookup "geo" query) then
    steps <-
      match drill_plugin W, geo_plugin W with
      | Some dr, Some g =>
          emit (DrillPreprocess (VObj query)) ;;
          edit_query (preprocessQuery dr) ;;
          query <- the_query ;;
          a <- this_app ;;
          found <- await (GeoQuery (app_id a) (lookup "geo" query))
                         (geo_query g (app_id a) (lookup "geo" query)) ;;
          if truthy found && truthy (js_length found) then
            match found with
            | VArr regions => ret (steps ++ [match_step (geo_or g regions)])
            | _ => throw (TypeError "geos.map is not a function")
            end
          else
            edit_query (assign "invalidgeo" (VBool true)) ;;
            ret steps
      | _, _ => ret steps
      end ;;
    edit_query (remove "geo") ;;
    ret steps
  else ret steps.

(** The block [// User query] of [steps]. *)
Definition steps_user (W : World) (steps : list value) : M (list value) :=
  s <- get ;;
  match user (filter (message s)) with
  | Some _ =>
      steps <- steps_user_message W steps ;;
      steps <- steps_user_geo W steps ;;
      query <- the_query ;;
      if negb (is_nil (keys query))
      then ret (steps ++ [match_step (VObj query)])
      else ret steps
  | None => ret steps
  end.

(** The first branch of the block [// Drill query]: the cohort markers of
    [{chr: {$in: .., $nin: ..}}]. *)
Definition drill_cohorts (chr : value) : obj :=
  let cohorts := [] in
  let cohorts :=
    if truthy (prop "$in" chr) && truthy (js_length (prop "$in" chr))
    then mark_all (VStr "true") (items (prop "$in" chr)) cohorts
    else cohorts in
  if truthy (prop "$nin" chr) && truthy (js_length (prop "$nin" chr))
  then mark_all (VObj [("$exists", VBool false)])
                (items (prop "$nin" chr)) cohorts
  else cohorts.

(** [Object.assign(target, source)]. *)
Definition object_assign (target source : obj) : obj :=
  fold_left (fun acc kv => assign (fst kv) (snd kv) acc) source target.

(** The second branch of the block [// Drill query]. [queryObject] is
    shared between [params.qstring] and the message's filter, so the
    [delete] edits the filter too. *)
Definition steps_drill_fetch (W : World) (dr : DrillApi) (query : obj)
    (steps : list value) : M (list value) :=
  a <- this_app ;;
  let time := initTimeObj W (timezone a) (now (host W)) in
  match lookup "queryObject" query with
  | VUndefined | VNull =>
      throw (TypeError "Cannot convert undefined or null to object")
  | VObj qo => edit_drill (assign "queryObject" (VObj (remove "chr" qo)))
  | _ => ret tt
  end ;;
  s <- get ;;
  let query :=
    match drill (filter (message s)) with Some q => q | None => query end in
  let qstring :=
    object_assign [("app_id", VStr (to_string (app_id a)))] query in
  let params := VObj [("time", time); ("qstring", VObj qstring)] in
  emit (DrillFetchUsers params) ;;
  arr <- (let (err, uids) := fetchUsers dr params in
          if truthy err then throw (Rejected err)
          else ret (if truthy uids then uids else VArr [])) ;;
  ret (steps ++ [match_step (VObj [("uid", VObj [("$in", arr)])])]).

(** The block [// Drill query] of [steps]. *)
Definition steps_drill (W : World) (steps : list value) : M (list value) :=
  s <- get ;;
  match drill (filter (message s)), drill_plugin W with
  | Some query, Some dr =>
      match lookup "queryObject" query with
      | VObj qo =>
          if truthy (lookup "chr" qo) && (Z.of_nat (length (keys qo)) =? 1)
          then ret (steps ++ [match_step (VObj (drill_cohorts (lookup "chr" qo)))])
          else steps_drill_fetch W dr query steps
      | _ => steps_drill_fetch W dr query steps
      end
  | _, _ => ret steps
  end.

(** The default parameter [project = {uid: 1}]. *)
Definition default_project (project : value) : value :=
  match project with VUndefined => VObj [("uid", VNum 1)] | _ => project end.

(** [steps(project = {uid: 1})]. *)
Definition steps (W : World) (project : value) : M (list value) :=
  let project := default_project project in
  s <- get ;;
  let flds := map (fun f => VObj [(f, VBool true)])
                  (fields W (platforms (message s)) true) in
  let steps := [] in
  let steps := steps ++ [match_step (VObj [("$or", VArr flds)])] in
  steps <- steps_geos W steps ;;
  steps <- steps_cohorts steps ;;
  steps <- steps_user W steps ;;
  steps <- steps_drill W steps ;;
  ret (steps ++ [project_step project]).

(** The properties of an [Audience] instance, own ([log], [message],
    [app]) and inherited from the class, by name. *)
Definition Audience_members : list string :=
  ["log"; "message"; "app"; "constructor"; "getApp"; "push"; "pop";
   "schedule"; "steps"; "aggregate"; "filterMessage"].

(** [await this.<name>(project)] where a list of pipeline steps is
    expected: a missing property is undefined and calling it throws. *)
Definition call_member (W : World) (name : string) (project : value)
  : M (list value) :=
  if negb (existsb (String.eqb name) Audience_members)
  then throw (TypeError (String.append "this." (String.append name
                                                  " is not a function")))
  else if String.eqb name "steps" then steps W project
  else throw (TypeError "the result is not a list of steps").

(** [aggregate(project = {uid: 1})]. *)
Definition aggregate (W : World) (project : value) : M (list AppUser) :=
  let project := default_project project in
  steps <- call_member W "query" project ;;
  a <- this_app ;;
  let collection := String.append "app_users" (to_string (app_id a)) in
  await (DbAggregate collection steps) (db_aggregate W collection steps).

(** ** Pushers and poppers *)

Inductive MapperClass : Type := PlainApi | CohortsEvents.

(** The properties read through [this] in [PusherPopper] and its
    subclasses. The constructor assigns [audience] (the audience of the
    state), [trigger] and [mappers]; the setters assign [contents], [data],
    [variables], [start] and [uids]; nothing assigns [message]. *)
Record PusherPopper : Type := mkPusherPopper {
  pp_trigger : Trigger;
  mappers : list (MapperClass * Mapper);
  contents : value;
  data : value;
  variables : value;
  pp_start : option Z;
  uids : value;
  pp_message : option Message
}.

(** Dynamic dispatch of [mapper.map(user, date, c)]. *)
Definition mapper_map (h : Host) (m : MapperClass * Mapper) (user : AppUser)
    (date : Z) (c : value) : outcome value :=
  match fst m with
  | PlainApi => PlainApiMapper_map h (snd m) user date c
  | CohortsEvents => CohortsEventsMapper_map h (snd m) user date c
  end.

Definition lift {A : Type} (r : outcome A) : M A :=
  match r with
  | Returned a => ret a
  | Threw e => throw e
  end.

(** Monadic iteration over a list, left to right. *)
Fixpoint for_each {A B : Type} (body : A -> B -> M B) (l : list A) (acc : B)
  : M B :=
  match l with
  | [] => ret acc
  | x :: rest => acc <- body x acc ;; for_each body rest acc
  end.

(** [constructor(audience, trigger)]. *)
Definition PusherPopper_new (W : World) (trigger : Trigger) : M PusherPopper :=
  s <- get ;;
  let msg := message s in
  perPlatform <-
    for_each
      (fun p acc =>
         match platform_fields W p with
         | None => throw (TypeError "Cannot read properties of undefined")
         | Some fs =>
             ms <- for_each
                     (fun f acc =>
                        a <- this_app ;;
                        let m := Mapper_new (host W) a msg trigger p f in
                        match kind trigger with
                        | API | Plain => ret (acc ++ [(PlainApi, m)])
                        | _ => ret (acc ++ [(CohortsEvents, m)])
                        end)
                     fs [] ;;
             ret (acc ++ [ms])
         end)
      (platforms msg) [] ;;
  ret (mkPusherPopper trigger (concat perPlatform)
                      VUndefined VUndefined VUndefined None VUndefined None).

(** [Audience.pop(trigger)] and [Audience.schedule(trigger, date)]. *)
Definition pop (W : World) (trigger : Trigger) : M PusherPopper :=
  PusherPopper_new W trigger.

Definition setStart (start : option Z) (this : PusherPopper) : PusherPopper :=
  mkPusherPopper (pp_trigger this) (mappers this) (contents this) (data this)
                 (variables this) start (uids this) (pp_message this).

Definition setContents (c : value) (this : PusherPopper) : PusherPopper :=
  mkPusherPopper (pp_trigger this) (mappers this) c (data this)
                 (variables this) (pp_start this) (uids this)
                 (pp_message this).

Definition schedule (W : World) (trigger : Trigger) (date : option Z)
  : M PusherPopper :=
  this <- PusherPopper_new W trigger ;;
  ret (setStart date this).

(** *** The queue writer *)

(** Modelled from the spec: [Push.batchInsert], [pushSync] and [flush] of
    [./data/message] are not part of the sources at hand. The writer
    accepts records one at a time, buffers up to the configured batch
    size, reports whether the caller must flush, and keeps a running
    total of the records ever accepted; flush writes the buffered batch
    durably and clears the buffer, and a failed write is surfaced to the
    caller. *)
Record Batch : Type := mkBatch {
  batch_size : Z;
  buffer : list value;
  total : Z
}.


Definition pushSync (record : value) (b : Batch) : Batch * bool :=
  let b' := mkBatch (batch_size b) (buffer b ++ [record]) (total b + 1) in
  (b', batch_size b' <=? Z.of_nat (length (buffer b'))).

Definition flush (W : World) (b : Batch) : M Batch :=
  await (DbInsertMany "push" (buffer b)) (db_insertMany W "push" (buffer b)) ;;
  s <- get ;;
  put (mkState (message s) (app s) (queue s ++ buffer b) (processed s)
               (responses s) (trace s)) ;;
  ret (mkBatch (batch_size b) [] (total b)).

(** *** [SchedulePusher] *)

(** The body of the inner loop of [run] once [mapper.map] has returned
    [push]. *)
Definition offer (W : World) (push : value) (batch : Batch) : M Batch :=
  if negb (truthy push) then ret batch
  else
    let (batch, full) := pushSync push batch in
    if full then flush W batch else ret batch.

(** The two nested loops of [run]. *)
Definition run_loops (W : World) (this : PusherPopper) (start : Z)
    (stream : list AppUser) (batch : Batch) : M Batch :=
  for_each
    (fun user batch =>
       for_each
         (fun mapper batch =>
            push <- lift (mapper_map (host W) mapper user start
                                     (contents this)) ;;
            offer W push batch)
         (mappers this) batch)
    stream batch.



(** *** [Popper] *)

(** Equality of documents. *)
Fixpoint value_eqb (a b : value) : bool :=
  match a, b with
  | VUndefined, VUndefined => true
  | VNull, VNull => true
  | VBool x, VBool y => Bool.eqb x y
  | VNum x, VNum y => x =? y
  | VStr x, VStr y => String.eqb x y
  | VOid x, VOid y => String.eqb x y
  | VArr x, VArr y =>
      (fix all2 (x y : list value) : bool :=
         match x, y with
         | [], [] => true
         | a :: x', b :: y' => value_eqb a b && all2 x' y'
         | _, _ => false
         end) x y
  | VObj x, VObj y =>
      (fix all2 (x y : list (string * value)) : bool :=
         match x, y with
         | [], [] => true
         | (k, a) :: x', (k', b) :: y' =>
             String.eqb k k' && value_eqb a b && all2 x' y'
         | _, _ => false
         end) x y
  | _, _ => false
  end.

(** A queued record matches [{m: id, p: platform}]. *)
Definition queued_for (id : value) (p : string) (doc : value) : bool :=
  value_eqb (prop "m" doc) id && value_eqb (prop "p" doc) (VStr p).

(** [common.db.collection('push').deleteMany({m, p})], then
    [res.deletedCount]. *)
Definition deleteMany (id : value) (p : string) : M Z :=
  emit (DbDeleteMany "push" (VObj [("m", id); ("p", VStr p)])) ;;
  s <- get ;;
  let gone := List.filter (queued_for id p) (queue s) in
  put (mkState (message s) (app s)
               (List.filter (fun d => negb (queued_for id p d)) (queue s))
               (processed s) (responses s) (trace s)) ;;
  ret (Z.of_nat (length gone)).

(** The number stored under [k], with [|| 0]. *)
Definition count_or0 (k : string) (o : obj) : Z :=
  match lookup k o with
  | VNum n => or0 n
  | _ => 0
  end.

(** [for (let p in deleted)] over an array: the indices, as strings. *)
Definition indices (l : list Z) : list (string * Z) :=
  combine (map (fun i => to_string (VNum (Z.of_nat i))) (seq 0 (length l))) l.

(** The [$inc] document [clear] accumulates. *)
Definition clear_inc (deleted : list Z) : obj :=
  fold_left
    (fun inc pd =>
       let inc := assign "result.processed"
                         (VNum (count_or0 "result.processed" inc + snd pd))
                         inc in
       let k := String.append "result.errors."
                  (String.append (fst pd) ".cancelled") in
       assign k (VNum (count_or0 k inc + snd pd)) inc)
    (indices deleted) [].

(** Modelled from the spec: [message.update(update, cb)] of
    [./data/message] is not part of the sources at hand. It sends an
    atomic update with increment operators to the message store and runs
    the local-effect callback after the write. *)
Definition message_update (update : value) (cb : M unit) : M unit :=
  emit (MessageUpdate update) ;; cb.

(** [Popper.clear()]. *)
Definition clear (this : PusherPopper) : M Z :=
  match pp_message this with
  | None => throw (TypeError "Cannot read properties of undefined")
  | Some msg =>
      deleted <- for_each
                   (fun p acc => n <- deleteMany (_id msg) p ;;
                                 ret (acc ++ [n]))
                   (platforms msg) [] ;;
      (if negb (is_nil deleted) then
         message_update (VObj [("$inc", VObj (clear_inc deleted))])
           (for_each
              (fun pd (_ : unit) =>
                 s <- get ;;
                 put (mkState (message s) (app s) (queue s)
                              (processed s + snd pd)
                              (responses s ++ [(fst pd, "cancelled", snd pd)])
                              (trace s)))
              (indices deleted) tt)
       else ret tt) ;;
      ret (fold_left Z.add deleted 0)
  end.

(** * Definitions used by the statements *)

(** A process running in UTC at [t]; the app's zone is 300 minutes behind
    UTC. *)
Definition utcHost (t : Z) : Host :=
  mkHost t 0 (fun d => d - d mod 86400000) (fun _ => -300)
         (fun d => VOid (to_string (VNum d))).

Definition noFilter : Filter := mkFilter [] [] None None.

Definition msgA : Message :=
  mkMessage (VOid "m1") ["a"] noFilter (VObj [("uid", VNum 1)]).

Definition userA : AppUser :=
  mkUser (VStr "u1") (Some 0) (Some [("atoken", VStr "device-token")]).

Definition plainTrigger : Trigger :=
  mkTrigger Plain 1000 false 0 None false None None.

(** Cohort trigger at 9:00 local time. *)
Definition cohortTrigger (resched : bool) (expiry : option Z) : Trigger :=
  mkTrigger Cohort 0 false 0 (Some 32400000) resched None expiry.

Definition mapperA (t : Trigger) : Mapper := mkMapper (-300) msgA t "a" "token".

(** The spreading delay as [map] adds it: nothing for an absent or zero
    delay. *)
Definition delay_ms (t : Trigger) : Z :=
  match delay t with Some dl => dl | None => 0 end.

(** The restriction [steps] always emits first: an [$or] over the token
    fields of the targeted platforms. *)
Definition token_step (W : World) (msg : Message) : value :=
  match_step
    (VObj [("$or", VArr (map (fun f => VObj [(f, VBool true)])
                             (fields W (platforms msg) true)))]).

(** A world without plugins whose stores answer with nothing. *)
Definition quietWorld : World :=
  mkWorld (utcHost 0)
          (fun ps _ => map (fun p => String.append "tk" (String.append p "token")) ps)
          (fun _ => Some ["token"]) 2 (fun _ => Some plainTrigger)
          None None
          (fun _ _ => Returned []) (fun _ _ => Returned [])
          (fun _ _ => Returned tt) (fun _ _ => VNull).

Definition appA : App := mkApp (VOid "app1") "UTC".

Definition stateA (msg : Message) : State :=
  mkState msg (Some appA) [] 0 [] [].

Definition is_fetch (c : call) : bool :=
  match c with DrillFetchUsers _ => true | _ => false end.

(** The calls to [fetchUsers] on a trace. *)
Definition fetch_calls (t : list call) : list call := List.filter is_fetch t.

(** The drill filter is untouched and no [fetchUsers] call was added. *)
Definition drill_frame (s s' : State) : Prop :=
  drill (filter (message s')) = drill (filter (message s)) /\
  fetch_calls (trace s') = fetch_calls (trace s).

Definition keeps {A : Type} (c : M A) : Prop :=
  forall s, drill_frame s (snd (c s)).

(** The blocks of [steps] that come before the drill block. *)
Definition steps_before_drill (W : World) : M (list value) :=
  s <- get ;;
  steps <- steps_geos W [token_step W (message s)] ;;
  steps <- steps_cohorts steps ;;
  steps_user W steps.

(** The drill filter [{queryObject: {chr: {$in: ids}}}]. *)
Definition cohortOnly (ids : list value) : obj :=
  [("queryObject", VObj [("chr", VObj [("$in", VArr ids)])])].

(** A geo plugin that finds the regions [found] for every query, and a
    drill plugin whose [preprocessQuery] leaves the query as it is. *)
Definition geoA (found : value) : GeoApi :=
  mkGeo (fun g => VObj [("loc", g)]) (fun _ _ => Returned found).

Definition drillA : DrillApi :=
  mkDrill (fun q => q) (fun _ => (VNull, VArr [VStr "u1"])).

Definition pluginWorld (found : value) : World :=
  mkWorld (utcHost 0)
          (fun ps _ => map (fun p => String.append "tk" (String.append p "token")) ps)
          (fun _ => Some ["token"]) 2 (fun _ => Some plainTrigger)
          (Some (geoA found)) (Some drillA)
          (fun _ _ => Returned []) (fun _ _ => Returned [])
          (fun _ _ => Returned tt) (fun _ _ => VNull).

Definition msgWith (fl : Filter) : Message :=
  mkMessage (VOid "m1") ["a"] fl (VObj [("uid", VNum 1)]).

(** The step of the block [// Cohorts], if any. *)
Definition cohort_steps (fl : Filter) : list value :=
  if negb (is_nil (cohorts fl))
  then [match_step (VObj (mark_all (VStr "true") (cohorts fl) []))]
  else [].

(** The query left by the geo block when no region was found. *)
Definition invalid_geo_query (dr : DrillApi) (q : obj) : obj :=
  remove "geo" (assign "invalidgeo" (VBool true) (preprocessQuery dr q)).


Definition userQueryA : obj :=
  [("geo", VObj [("near", VStr "here")]); ("age", VNum 3)].




(** [popper.message = m], an assignment no code of the module makes. *)
Definition assign_message (m : Message) (this : PusherPopper) : PusherPopper :=
  mkPusherPopper (pp_trigger this) (mappers this) (contents this) (data this)
                 (variables this) (pp_start this) (uids this) (Some m).

Definition msgB : Message :=
  mkMessage (VOid "m1") ["a"; "i"] noFilter (VObj [("uid", VNum 1)]).

Definition queued (m : string) (p : string) (u : Z) : value :=
  VObj [("m", VOid m); ("p", VStr p); ("u", VNum u)].

(** Three records queued for [msgB], one for another message. *)
Definition stateB : State :=
  mkState msgB (Some appA)
          [queued "m1" "a" 1; queued "m1" "i" 2; queued "m1" "a" 3;
           queued "m2" "a" 4]
          0 [] [].



(** * The rest of the module *)

(** ** [Audience.getApp] *)

(** The collection [apps]: the message's [app] property and
    [common.db.collection('apps').findOne]. *)
Record AppsStore : Type := mkApps {
  message_app : Message -> value;
  findOne : value -> outcome (option App)      (* None is null *)
}.

(** [this.app = a]. *)
Definition set_app (a : option App) : M unit :=
  fun s => (Returned tt,
            mkState (message s) a (queue s) (processed s) (responses s)
                    (trace s)).

(** [getApp()]. *)
Definition getApp (A : AppsStore) : M App :=
  s <- get ;;
  match app s with
  | Some a => ret a
  | None =>
      let id := message_app A (message s) in
      found <- await (DbFind "apps" id) (findOne A id) ;;
      set_app found ;;
      match found with
      | Some a => ret a
      | None =>
          throw (PushError (String.append "App "
                              (String.append (to_string id) " not found")))
      end
  end.

(** ** [Popper.terminate] *)

(** [State.Done], [State.Error] of [./data] and
    [new PushError(msg).serialize()] of [./data/error]. *)
Record ErrorApi : Type := mkErrorApi {
  State_Done : Z;
  State_Error : Z;
  serialize : string -> value
}.

(** [terminate(msg = 'Terminated')]. *)
Definition terminate (E : ErrorApi) (msg : option string)
    (this : PusherPopper) : M Z :=
  let msg := match msg with Some m => m | None => "Terminated" end in
  deleted <- clear this ;;
  match pp_message this with
  | None => throw (TypeError "Cannot read properties of undefined")
  | Some _ =>
      message_update
        (VObj [("$set",
                VObj [("state", VNum (Z.lor (State_Done E) (State_Error E)));
                      ("result.error", serialize E msg)])])
        (ret tt)
  end ;;
  ret deleted.

(** [Audience.push(trigger)]. *)
Definition push (W : World) (trigger : Trigger) : M PusherPopper :=
  PusherPopper_new W trigger.

(** * Definitions used by the further statements *)

(** The class [PusherPopper]'s constructor picks for a trigger. *)
Definition mapper_class (t : Trigger) : MapperClass :=
  match kind t with
  | API | Plain => PlainApi
  | _ => CohortsEvents
  end.

(** One mapper per platform and field, platforms first. *)
Definition expected_mappers (W : World) (s : State) (a : App) (t : Trigger)
    (fs : string -> list string) : list (MapperClass * Mapper) :=
  flat_map
    (fun p => map (fun f => (mapper_class t,
                             Mapper_new (host W) a (message s) t p f))
                  (fs p))
    (platforms (message s)).

(** The loop over the platforms, as the constructor writes it. *)
Definition new_mappers_loop (W : World) (t : Trigger) (s : State)
    (ps : list string) (acc : list (list (MapperClass * Mapper)))
  : outcome (list (list (MapperClass * Mapper))) * State :=
  for_each
    (fun p acc =>
       match platform_fields W p with
       | None => throw (TypeError "Cannot read properties of undefined")
       | Some fs =>
           ms <- for_each
                   (fun f acc =>
                      a <- this_app ;;
                      let m := Mapper_new (host W) a (message s) t p f in
                      match kind t with
                      | API | Plain => ret (acc ++ [(PlainApi, m)])
                      | _ => ret (acc ++ [(CohortsEvents, m)])
                      end)
                   fs [] ;;
           ret (acc ++ [ms])
       end)
    ps acc s.

(** A world that knows platform [a] only. *)
Definition worldOnlyA : World :=
  mkWorld (utcHost 0)
          (fun ps _ => map (fun p => String.append "tk" (String.append p "token")) ps)
          (fun p => if String.eqb p "a" then Some ["token"] else None)
          2 (fun _ => Some plainTrigger)
          None None
          (fun _ _ => Returned []) (fun _ _ => Returned [])
          (fun _ _ => Returned tt) (fun _ _ => VNull).

(** What [clear] leaves of a queue after its [deleteMany] calls, and what
    the calls report. *)
Fixpoint remaining (id : value) (ps : list string) (q : list value)
  : list value :=
  match ps with
  | [] => q
  | p :: ps =>
      remaining id ps (List.filter (fun d => negb (queued_for id p d)) q)
  end.

Fixpoint del_counts (id : value) (ps : list string) (q : list value)
  : list Z :=
  match ps with
  | [] => []
  | p :: ps =>
      Z.of_nat (length (List.filter (queued_for id p) q))
        :: del_counts id ps (List.filter (fun d => negb (queued_for id p d)) q)
  end.

(** A queued record of message [m] for one of its platforms. *)
Definition targeted (m : Message) (doc : value) : bool :=
  existsb (fun p => queued_for (_id m) p doc) (platforms m).

Definition sum (l : list Z) : Z := fold_left Z.add l 0.

(** The state [clear] ends in when [this.message] is [m]. *)
Definition cleared (m : Message) (s : State) : State :=
  let deleted := del_counts (_id m) (platforms m) (queue s) in
  mkState (message s) (app s)
          (remaining (_id m) (platforms m) (queue s))
          (if is_nil deleted then processed s else processed s + sum deleted)
          (if is_nil deleted then responses s
           else responses s
                ++ map (fun pd => (fst pd, "cancelled", snd pd)) (indices deleted))
          (trace s
           ++ map (fun p => DbDeleteMany "push"
                              (VObj [("m", _id m); ("p", VStr p)]))
                  (platforms m)
           ++ (if is_nil deleted then []
               else [MessageUpdate (VObj [("$inc", VObj (clear_inc deleted))])])).

(** The [deleteMany] calls of [clear] for message [m]. *)
Definition delete_calls (m : Message) : list call :=
  map (fun p => DbDeleteMany "push" (VObj [("m", _id m); ("p", VStr p)]))
      (platforms m).

(** The update [terminate] sends. *)
Definition terminate_update (E : ErrorApi) (msg : string) : call :=
  MessageUpdate
    (VObj [("$set",
            VObj [("state", VNum (Z.lor (State_Done E) (State_Error E)));
                  ("result.error", serialize E msg)])]).

Definition errorApiA : ErrorApi :=
  mkErrorApi 64 128 (fun msg => VObj [("message", VStr msg)]).

(** [stateB] with the queue emptied of the records of [msgB]. *)
Definition stateB_idle : State :=
  mkState msgB (Some appA) [queued "m2" "a" 4] 0 [] [].

(** An [apps] collection that holds [appA] under the id [app1]. *)
Definition appsA : AppsStore :=
  mkApps (fun _ => VOid "app1")
         (fun id => Returned (if value_eqb id (VOid "app1")
                              then Some appA else None)).

(** An [apps] collection that holds nothing. *)
Definition appsNone : AppsStore :=
  mkApps (fun _ => VOid "app1") (fun _ => Returned None).

(** [stateA] before the app was loaded. *)
Definition stateNoApp (msg : Message) : State :=
  mkState msg None [] 0 [] [].

(** A restriction step. *)
Definition is_match_step (v : value) : bool :=
  match v with
  | VObj [("$match", _)] => true
  | _ => false
  end.

(** A block that, when it returns, returns the list [l] with restriction
    steps added at its end. *)
Definition extends (c : M (list value)) (l : list value) : Prop :=
  forall s l' s',
    c s = (Returned l', s') ->
    exists extra, l' = l ++ extra /\ Forall (fun v => is_match_step v = true) extra.

Definition userQueryB : obj := [("age", VNum 3)].

(** The query [filterMessage] sends for a plain list of message ids. *)
Definition message_ids_query (ids : list value) : value :=
  VObj [("msgs", VObj [("$elemMatch", VObj [("0", VObj [("$in", VArr ids)])])])].

(** The [params] of the drill block for a drill filter [query] whose
    [queryObject] is the object [qo]. *)
Definition drill_params (W : World) (a : App) (query qo : obj) : value :=
  VObj [("time", initTimeObj W (timezone a) (now (host W)));
        ("qstring",
         VObj (object_assign [("app_id", VStr (to_string (app_id a)))]
                 (assign "queryObject" (VObj (remove "chr" qo)) query)))].

(** A drill filter that is not a bare cohort expression. *)
Definition drillQueryA : obj :=
  [("queryObject", VObj [("chr", VObj [("$in", VArr [VStr "c1"])]);
                         ("up.age", VNum 3)]);
   ("period", VStr "30days")].

(** A world whose store finds one interaction record. *)
Definition historyWorld : World :=
  mkWorld (utcHost 0)
          (fun ps _ => map (fun p => String.append "tk" (String.append p "token")) ps)
          (fun _ => Some ["token"]) 2 (fun _ => Some plainTrigger)
          None (Some drillA)
          (fun _ _ => Returned [VObj [("_id", VStr "u7")]])
          (fun _ _ => Returned [])
          (fun _ _ => Returned tt) (fun _ _ => VNull).

(** The same state, its message's filter without geo regions. *)
Definition without_geos (s : State) : State :=
  mkState (mkMessage (_id (message s)) (platforms (message s))
                     (mkFilter [] (cohorts (filter (message s)))
                               (user (filter (message s)))
                               (drill (filter (message s))))
                     (userFields (message s)))
          (app s) (queue s) (processed s) (responses s) (trace s).

(** Two computations that do the same whether or not the filter lists
    geo regions. *)
Definition sim {A : Type} (c1 c2 : M A) : Prop :=
  forall s, fst (c1 s) = fst (c2 (without_geos s))
            /\ without_geos (snd (c1 s)) = snd (c2 (without_geos s)).

(** * The scheduled trigger of the hooks plugin

    [plugins/hooks/api/parts/triggers/scheduled.js]: the rules a
    [ScheduledTrigger] holds and what [process] does with a pipeline
    feed. The calls [this.pipeline(data)] and
    [utils.updateRuleTriggerTime(id)] are recorded in the order they are
    made. *)

Record ScheduledTrigger : Type := mkScheduled {
  _rules : value;
  piped : list value;          (* arguments of this.pipeline *)
  touched : list value         (* arguments of updateRuleTriggerTime *)
}.

(** [r.trigger.type === 'ScheduledTrigger']: reading [trigger] of null or
    undefined, or [type] of a null or undefined [trigger], throws. *)
Definition is_scheduled (r : value) : outcome bool :=
  match r with
  | VUndefined | VNull =>
      Threw (TypeError "Cannot read properties of undefined")
  | _ =>
      match prop "trigger" r with
      | VUndefined | VNull =>
          Threw (TypeError "Cannot read properties of undefined")
      | t => Returned (value_eqb (prop "type" t) (VStr "ScheduledTrigger"))
      end
  end.

(** [rules.filter(r => ..)] with a predicate that may throw. *)
Fixpoint filter_rules (rules : list value) : outcome (list value) :=
  match rules with
  | [] => Returned []
  | r :: rest =>
      match is_scheduled r with
      | Threw e => Threw e
      | Returned keep =>
          match filter_rules rest with
          | Threw e => Threw e
          | Returned kept => Returned (if keep then r :: kept else kept)
          end
      end
  end.

(** [syncRules(rules)]. *)
Definition syncRules (rules : value) (this : ScheduledTrigger)
  : outcome unit * ScheduledTrigger :=
  match rules with
  | VArr l =>
      match filter_rules l with
      | Returned newRules =>
          (Returned tt, mkScheduled (VArr newRules) (piped this) (touched this))
      | Threw e => (Threw e, this)
      end
  | _ => (Returned tt, this)
  end.

(** [process(ob)]. *)
Definition process (ob : value) (this : ScheduledTrigger)
  : outcome value * ScheduledTrigger :=
  match ob with
  | VUndefined | VNull =>
      (Threw (TypeError "Cannot destructure property 'rule'"), this)
  | _ =>
      let rule := prop "rule" ob in
      if negb (truthy rule) then (Returned (VBool false), this)
      else if value_eqb (prop "is_mock" ob) (VBool true)
      then (Returned ob, this)
      else
        let data := VObj [("rule", rule)] in
        (Returned data,
         mkScheduled (_rules this) (piped this ++ [data])
                     (touched this ++ [prop "_id" rule]))
  end.

Definition ruleOf (type : string) (name : string) : value :=
  VObj [("name", VStr name); ("trigger", VObj [("type", VStr type)])].
(** * Properties *)

(** ** Tactics *)

Ltac run_monad :=
  unfold bind, ret, throw, get, put, emit, await, lift, this_app,
         the_query, edit_query, edit_drill, set_filter; simpl.

(** ** The monad *)

Lemma bind_returned {A B : Type} (c : M A) (k : A -> M B) (s s' : State)
    (a : A) :
  c s = (Returned a, s') -> bind c k s = k a s'.
Proof. intros H. unfold bind. rewrite H. reflexivity. Qed.

Lemma bind_threw {A B : Type} (c : M A) (k : A -> M B) (s s' : State)
    (e : error) :
  c s = (Threw e, s') -> bind c k s = (Threw e, s').
Proof. intros H. unfold bind. rewrite H. reflexivity. Qed.

Lemma this_app_loaded (s : State) (a : App) :
  app s = Some a -> this_app s = (Returned a, s).
Proof. intros H. unfold this_app, bind, get, ret. rewrite H. reflexivity. Qed.

(** ** The mappers *)

Lemma or0_id (x : Z) : or0 x = x.
Proof. unfold or0. destruct (x =? 0) eqn:E; [apply Z.eqb_eq in E; lia | reflexivity]. Qed.

(** The base [map] never returns the record it builds when the override
    argument [c] is absent. *)
Lemma Mapper_map_undefined (h : Host) (this : Mapper) (user : AppUser)
    (date : Z) (pr : value) :
  Mapper_map h this user date pr VUndefined = Returned VUndefined \/
  exists e, Mapper_map h this user date pr VUndefined = Threw e.
Proof.
  unfold Mapper_map. destruct (user_tk user); [left | right; eexists]; reflexivity.
Qed.

(** C1: the Immediate mapper is expected to return a delivery record for
    every user, date and override. It never does: for every input
    [PlainApiMapper.map] returns undefined or throws, because [Mapper.map]
    returns its fourth parameter instead of the record it has built. *)
Theorem PlainApiMapper_map_no_record (h : Host) (this : Mapper)
    (user : AppUser) (date : Z) (c : value) :
  PlainApiMapper_map h this user date c = Returned VUndefined \/
  exists e, PlainApiMapper_map h this user date c = Threw e.
Proof.
  unfold PlainApiMapper_map. apply Mapper_map_undefined.
Qed.

(** At a user holding a token the record is built with the expected
    shape, and undefined is returned. *)
Example PlainApiMapper_map_userA :
  PlainApiMapper_map (utcHost 0) (mapperA plainTrigger) userA 1000
                     (VArr [VObj [("title", VStr "hi")]])
    = Returned VUndefined
  /\ Mapper_ret (utcHost 0) (mapperA plainTrigger) userA 1000
                (VArr [VObj [("title", VStr "hi")]]) VUndefined
                [("atoken", VStr "device-token")]
     = [("_id", VOid "1000"); ("m", VOid "m1"); ("p", VStr "a");
        ("f", VStr "token"); ("u", VStr "u1"); ("t", VStr "device-token");
        ("pr", VArr [VObj [("title", VStr "hi")]])].
Proof. split; reflexivity. Qed.

(** C2: with a time-of-day offset, a candidate instant earlier than now
    and rescheduling disabled, the Anchored mapper returns null. *)
Theorem CohortsEventsMapper_map_missed_window (h : Host) (this : Mapper)
    (user : AppUser) (date : Z) (c : value) (t : Z) :
  time (mapper_trigger this) = Some t ->
  inTz h this user date t < now h ->
  reschedule (mapper_trigger this) = false ->
  CohortsEventsMapper_map h this user date c = Returned VNull.
Proof.
  intros Ht Hpast Hre.
  unfold CohortsEventsMapper_map, CohortsEventsMapper_instant.
  rewrite Ht, Hre.
  apply Z.ltb_lt in Hpast. rewrite Hpast. reflexivity.
Qed.

Lemma CohortsEventsMapper_map_missed_window_witness :
  inTz (utcHost 100000000) (mapperA (cohortTrigger false None)) userA 0 32400000
    < now (utcHost 100000000)
  /\ CohortsEventsMapper_map (utcHost 100000000)
       (mapperA (cohortTrigger false None)) userA 0 VUndefined
     = Returned VNull.
Proof.
  split.
  - vm_compute. reflexivity.
  - apply (CohortsEventsMapper_map_missed_window _ _ _ _ _ 32400000).
    + reflexivity.
    + vm_compute. reflexivity.
    + reflexivity.
Defined.

(** With a time-of-day offset, a candidate in the past and rescheduling
    enabled, the instant handed on is the candidate plus one day plus the
    delay. *)
Lemma CohortsEventsMapper_instant_rescheduled (h : Host) (this : Mapper)
    (user : AppUser) (date t : Z) :
  time (mapper_trigger this) = Some t ->
  inTz h this user date t < now h ->
  reschedule (mapper_trigger this) = true ->
  CohortsEventsMapper_instant h this user date
    = Some (inTz h this user date t + 86400000 + delay_ms (mapper_trigger this)).
Proof.
  intros Ht Hpast Hre.
  unfold CohortsEventsMapper_instant, delay_ms.
  rewrite Ht, Hre. apply Z.ltb_lt in Hpast. rewrite Hpast.
  destruct (delay (mapper_trigger this)) as [dl|].
  - destruct (dl =? 0) eqn:E; simpl.
    + apply Z.eqb_eq in E. subst. f_equal. lia.
    + f_equal.
  - f_equal. lia.
Qed.

(** C3: with rescheduling enabled and a candidate in the past the
    returned record is expected to carry the candidate plus one day. The
    instant is computed ([32400000 + 86400000] here) and handed to
    [Mapper.map], which returns undefined: no record comes back. *)
Theorem CohortsEventsMapper_map_rescheduled_no_record :
  inTz (utcHost 100000000) (mapperA (cohortTrigger true None)) userA 0 32400000
    = 32400000
  /\ CohortsEventsMapper_instant (utcHost 100000000)
       (mapperA (cohortTrigger true None)) userA 0
     = Some (32400000 + 86400000)
  /\ CohortsEventsMapper_map (utcHost 100000000)
       (mapperA (cohortTrigger true None)) userA 0 VUndefined
     = Returned VUndefined.
Proof. repeat split; vm_compute; reflexivity. Qed.

(** C4: when the trigger's expiry is strictly earlier than the final
    delivery instant, the Anchored mapper returns null, whatever the
    reschedule flag. *)
Theorem CohortsEventsMapper_map_expired (h : Host) (this : Mapper)
    (user : AppUser) (date : Z) (c : value) (d e : Z) :
  CohortsEventsMapper_instant h this user date = Some d ->
  trigger_end (mapper_trigger this) = Some e ->
  e < d ->
  CohortsEventsMapper_map h this user date c = Returned VNull.
Proof.
  intros Hd He Hlt.
  unfold CohortsEventsMapper_map. rewrite Hd, He.
  apply Z.ltb_lt in Hlt. rewrite Hlt. reflexivity.
Qed.

Lemma CohortsEventsMapper_map_expired_witness :
  (32400000 < 32400000 + 86400000)
  /\ CohortsEventsMapper_map (utcHost 100000000)
       (mapperA (cohortTrigger true (Some 32400000))) userA 0 VUndefined
     = Returned VNull.
Proof.
  split.
  - lia.
  - apply (CohortsEventsMapper_map_expired _ _ _ _ _
             (32400000 + 86400000) 32400000).
    + vm_compute. reflexivity.
    + reflexivity.
    + lia.
Defined.

(** ** The filter compiler *)

(** C5: for a message whose filter has every dimension empty, the compiled
    list is exactly two steps: the token-presence [$or] restriction, then
    the projection. *)
Theorem steps_empty_filter (W : World) (project : value) (s : State) :
  filter (message s) = noFilter ->
  steps W project s
    = (Returned [token_step W (message s);
                 project_step (default_project project)], s).
Proof.
  intros Hf.
  destruct s as [[id ps fl uf] ap qu pr rs tr]. simpl in Hf. subst fl.
  unfold steps, steps_geos, steps_cohorts, steps_user, steps_drill.
  run_monad. reflexivity.
Qed.

Lemma steps_empty_filter_witness :
  steps quietWorld VUndefined (stateA msgA)
    = (Returned [VObj [("$match",
                        VObj [("$or", VArr [VObj [("tkatoken", VBool true)]])])];
                 VObj [("$project", VObj [("uid", VNum 1)])]],
       stateA msgA).
Proof.
  apply (steps_empty_filter quietWorld VUndefined (stateA msgA)).
  reflexivity.
Defined.

(** C10: [aggregate] always throws before any call reaches the store: it
    calls [this.query], and an [Audience] has no property of that name
    (the step compiler is [steps]). The state, and with it the trace of
    calls, is left as it was. *)
Theorem aggregate_always_throws (W : World) (project : value) (s : State) :
  aggregate W project s
    = (Threw (TypeError "this.query is not a function"), s).
Proof. reflexivity. Qed.

(** *** What the blocks before the drill block leave alone *)

Lemma drill_frame_refl (s : State) : drill_frame s s.
Proof. split; reflexivity. Qed.

Lemma drill_frame_trans (s1 s2 s3 : State) :
  drill_frame s1 s2 -> drill_frame s2 s3 -> drill_frame s1 s3.
Proof. intros [A1 B1] [A2 B2]. split; congruence. Qed.

Lemma keeps_ret {A : Type} (a : A) : keeps (ret a).
Proof. intro s. apply drill_frame_refl. Qed.

Lemma keeps_throw {A : Type} (e : error) : keeps (@throw A e).
Proof. intro s. apply drill_frame_refl. Qed.

Lemma keeps_get : keeps get.
Proof. intro s. apply drill_frame_refl. Qed.

Lemma keeps_bind {A B : Type} (c : M A) (k : A -> M B) :
  keeps c -> (forall a, keeps (k a)) -> keeps (bind c k).
Proof.
  intros Hc Hk s. unfold bind.
  specialize (Hc s). destruct (c s) as [[a|e] s1]; simpl in *.
  - eapply drill_frame_trans; [exact Hc | apply Hk].
  - exact Hc.
Qed.

Lemma keeps_emit (c : call) : is_fetch c = false -> keeps (emit c).
Proof.
  intros Hc s. split; simpl; [reflexivity|].
  unfold fetch_calls. rewrite filter_app. simpl. rewrite Hc.
  apply app_nil_r.
Qed.

Lemma keeps_await {A : Type} (c : call) (r : outcome A) :
  is_fetch c = false -> keeps (await c r).
Proof.
  intros Hc. unfold await. apply keeps_bind; [apply keeps_emit; exact Hc|].
  intros _. destruct r; [apply keeps_ret | apply keeps_throw].
Qed.

Lemma keeps_this_app : keeps this_app.
Proof.
  unfold this_app. apply keeps_bind; [apply keeps_get|].
  intros s. destruct (app s); [apply keeps_ret | apply keeps_throw].
Qed.

Lemma keeps_the_query : keeps the_query.
Proof.
  unfold the_query. apply keeps_bind; [apply keeps_get|].
  intros s. destruct (user (filter (message s))); apply keeps_ret.
Qed.

Lemma keeps_edit_query (g : obj -> obj) : keeps (edit_query g).
Proof.
  intro s. unfold edit_query, bind, get, set_filter, ret.
  destruct (user (filter (message s))); split; reflexivity.
Qed.

Create HintDb keeps.

#[local] Hint Resolve keeps_ret keeps_throw keeps_get keeps_this_app
  keeps_the_query keeps_edit_query : keeps.

Ltac keeps_step :=
  match goal with
  | |- keeps (bind _ _) => apply keeps_bind; [|intros]
  | |- keeps (await _ _) => apply keeps_await; reflexivity
  | |- keeps (emit _) => apply keeps_emit; reflexivity
  | |- keeps (if ?b then _ else _) => destruct b
  | |- keeps (match ?x with _ => _ end) => destruct x
  | |- keeps _ => solve [auto with keeps]
  end.

Lemma keeps_filterMessage (W : World) (min : value) :
  keeps (filterMessage W min).
Proof. unfold filterMessage. repeat keeps_step. Qed.

Lemma keeps_steps_geos (W : World) (l : list value) : keeps (steps_geos W l).
Proof. unfold steps_geos. repeat keeps_step. Qed.

Lemma keeps_steps_cohorts (l : list value) : keeps (steps_cohorts l).
Proof. unfold steps_cohorts. repeat keeps_step. Qed.

Lemma keeps_steps_user_message (W : World) (l : list value) :
  keeps (steps_user_message W l).
Proof.
  unfold steps_user_message. repeat keeps_step.
  apply keeps_filterMessage.
Qed.

Lemma keeps_steps_user_geo (W : World) (l : list value) :
  keeps (steps_user_geo W l).
Proof. unfold steps_user_geo. repeat keeps_step. Qed.

Lemma keeps_steps_user (W : World) (l : list value) : keeps (steps_user W l).
Proof.
  unfold steps_user. repeat keeps_step.
  - apply keeps_steps_user_message.
  - apply keeps_steps_user_geo.
Qed.

Lemma keeps_steps_before_drill (W : World) : keeps (steps_before_drill W).
Proof.
  unfold steps_before_drill. repeat keeps_step.
  - apply keeps_steps_geos.
  - apply keeps_steps_cohorts.
  - apply keeps_steps_user.
Qed.

Lemma steps_split (W : World) (project : value) (s : State) :
  steps W project s
    = (l <- steps_before_drill W ;;
       l <- steps_drill W l ;;
       ret (l ++ [project_step (default_project project)])) s.
Proof.
  unfold steps, steps_before_drill, bind, get, ret. simpl.
  unfold token_step. simpl.
  destruct (steps_geos W _ s) as [[l1|e1] s1]; [|reflexivity].
  destruct (steps_cohorts l1 s1) as [[l2|e2] s2]; [|reflexivity].
  destruct (steps_user W l2 s2) as [[l3|e3] s3]; reflexivity.
Qed.


(** *** Objects *)

Lemma lookup_assign_same (k : string) (v : value) (o : obj) :
  lookup k (assign k v o) = v.
Proof.
  induction o as [|[k' v'] o IH]; simpl.
  - rewrite String.eqb_refl. reflexivity.
  - destruct (String.eqb k k') eqn:E; simpl; rewrite ?String.eqb_refl, ?E; auto.
Qed.

Lemma lookup_assign_other (k k' : string) (v : value) (o : obj) :
  String.eqb k k' = false -> lookup k (assign k' v o) = lookup k o.
Proof.
  intros Hk. induction o as [|[k2 v2] o IH]; simpl.
  - rewrite Hk. reflexivity.
  - destruct (String.eqb k' k2) eqn:E; simpl.
    + apply String.eqb_eq in E. subst k2. rewrite Hk. reflexivity.
    + destruct (String.eqb k k2); auto.
Qed.

Lemma has_key_remove (k : string) (o : obj) : has_key k (remove k o) = false.
Proof.
  induction o as [|[k' v'] o IH]; simpl; [reflexivity|].
  destruct (String.eqb k k') eqn:E; simpl; rewrite ?E; auto.
Qed.

Lemma lookup_remove_other (k k' : string) (o : obj) :
  String.eqb k k' = false -> lookup k (remove k' o) = lookup k o.
Proof.
  intros Hk. induction o as [|[k2 v2] o IH]; simpl; [reflexivity|].
  destruct (String.eqb k' k2) eqn:E; simpl.
  - apply String.eqb_eq in E. subst k2. rewrite Hk. exact IH.
  - destruct (String.eqb k k2); auto.
Qed.

Lemma mark_all_keeps (v : value) (ids : list value) (o : obj) (k : string) :
  lookup k o = v -> lookup k (mark_all v ids o) = v.
Proof.
  revert o. induction ids as [|id ids IH]; intros o Ho; simpl; [exact Ho|].
  apply IH. destruct (String.eqb k (marker id)) eqn:E.
  - apply String.eqb_eq in E. subst k. apply lookup_assign_same.
  - rewrite lookup_assign_other by exact E. exact Ho.
Qed.

Lemma mark_all_lookup (v : value) (ids : list value) (o : obj) (id : value) :
  In id ids -> lookup (marker id) (mark_all v ids o) = v.
Proof.
  revert o. induction ids as [|x ids IH]; intros o Hin; simpl; [contradiction|].
  destruct Hin as [->|Hin].
  - apply mark_all_keeps. apply lookup_assign_same.
  - apply IH. exact Hin.
Qed.

Lemma drill_cohorts_in (ids : list value) :
  drill_cohorts (VObj [("$in", VArr ids)]) = mark_all (VStr "true") ids [].
Proof. destruct ids; reflexivity. Qed.

(** *** The drill block *)

(** C6: when the drill filter is exactly [{queryObject: {chr: {$in: ids}}}]
    and the drill plugin is there, compilation adds one restriction after
    the earlier blocks, in which the marker [chr.<id>.in] of every listed
    id is ['true'], and [fetchUsers] is not called. *)
Theorem steps_drill_cohort_only (W : World) (project : value) (s : State)
    (ids : list value) (dr : DrillApi) :
  drill (filter (message s)) = Some (cohortOnly ids) ->
  drill_plugin W = Some dr ->
  fetch_calls (trace (snd (steps W project s))) = fetch_calls (trace s)
  /\ (forall id, In id ids ->
        lookup (marker id) (mark_all (VStr "true") ids []) = VStr "true")
  /\ steps W project s
     = match steps_before_drill W s with
       | (Returned l, s1) =>
           (Returned (l ++ [match_step (VObj (mark_all (VStr "true") ids []));
                            project_step (default_project project)]), s1)
       | (Threw e, s1) => (Threw e, s1)
       end.
Proof.
  intros Hd Hp.
  assert (Hsteps :
    steps W project s
    = match steps_before_drill W s with
      | (Returned l, s1) =>
          (Returned (l ++ [match_step (VObj (mark_all (VStr "true") ids []));
                           project_step (default_project project)]), s1)
      | (Threw e, s1) => (Threw e, s1)
      end).
  { rewrite steps_split. unfold bind.
    pose proof (keeps_steps_before_drill W s) as [Hk _].
    destruct (steps_before_drill W s) as [[l|e] s1]; simpl in *; [|reflexivity].
    rewrite Hd in Hk.
    unfold steps_drill, bind, get, ret. rewrite Hk, Hp. simpl.
    rewrite (drill_cohorts_in ids). rewrite <- app_assoc. reflexivity. }
  split; [|split].
  - rewrite Hsteps.
    pose proof (keeps_steps_before_drill W s) as [_ Hk].
    destruct (steps_before_drill W s) as [[l|e] s1]; exact Hk.
  - intros id Hin. apply mark_all_lookup. exact Hin.
  - exact Hsteps.
Qed.

Lemma steps_drill_cohort_only_witness :
  steps (pluginWorld (VArr [])) VUndefined
        (stateA (msgWith (mkFilter [] [] None
                            (Some (cohortOnly [VStr "c1"; VStr "c2"])))))
  = (Returned
       [VObj [("$match",
               VObj [("$or", VArr [VObj [("tkatoken", VBool true)]])])];
        VObj [("$match", VObj [("chr.c1.in", VStr "true");
                               ("chr.c2.in", VStr "true")])];
        VObj [("$project", VObj [("uid", VNum 1)])]],
     stateA (msgWith (mkFilter [] [] None
                        (Some (cohortOnly [VStr "c1"; VStr "c2"]))))).
Proof.
  refine (proj2 (proj2 (steps_drill_cohort_only (pluginWorld (VArr [])) VUndefined
           (stateA (msgWith (mkFilter [] [] None
                               (Some (cohortOnly [VStr "c1"; VStr "c2"])))))
           [VStr "c1"; VStr "c2"] drillA _ _))); reflexivity.
Defined.

(** *** The geo sub-query of the user query *)

Lemma invalid_geo_query_flag (dr : DrillApi) (q : obj) :
  lookup "invalidgeo" (invalid_geo_query dr q) = VBool true.
Proof.
  unfold invalid_geo_query.
  rewrite lookup_remove_other by reflexivity.
  apply lookup_assign_same.
Qed.

Lemma invalid_geo_query_keys (dr : DrillApi) (q : obj) :
  is_nil (keys (invalid_geo_query dr q)) = false.
Proof.
  pose proof (invalid_geo_query_flag dr q) as H.
  destruct (invalid_geo_query dr q); [discriminate H | reflexivity].
Qed.

Lemma steps_user_geo_zero (W : World) (l : list value) (s : State) (q : obj)
    (dr : DrillApi) (g : GeoApi) (a : App) (found : value) :
  user (filter (message s)) = Some q ->
  truthy (lookup "geo" q) = true ->
  drill_plugin W = Some dr -> geo_plugin W = Some g -> app s = Some a ->
  geo_query g (app_id a) (lookup "geo" (preprocessQuery dr q)) = Returned found ->
  truthy found && truthy (js_length found) = false ->
  exists s',
    steps_user_geo W l s = (Returned l, s')
    /\ user (filter (message s')) = Some (invalid_geo_query dr q)
    /\ geos (filter (message s')) = geos (filter (message s))
    /\ cohorts (filter (message s')) = cohorts (filter (message s))
    /\ drill (filter (message s')) = drill (filter (message s))
    /\ app s' = app s.
Proof.
  intros Hq Hgeo Hdr Hg Ha Hfound Hzero.
  destruct s as [[id ps [gs cs us ds] uf] ap qu pr rs tr].
  simpl in Hq, Ha. subst us ap.
  unfold steps_user_geo. run_monad. rewrite Hgeo, Hdr, Hg. simpl.
  rewrite Hfound. simpl. rewrite Hzero. simpl.
  eexists. repeat split.
Qed.

(** C7: for a user query with a geo sub-query the geo block never leaves
    the [geo] key behind when it completes: not when a plugin is missing,
    not when regions were found, not when none was. With both plugins
    there and zero regions found (a result that fails the code's test
    [geos && geos.length]) it completes without adding a step and sets
    [invalidgeo] on the query; with no other fallible dimension in the
    filter, compilation as a whole succeeds and emits that query as a
    restriction. *)
Theorem steps_user_geo_invalid (W : World) (project : value)
    (l : list value) (s : State) (q : obj) :
  user (filter (message s)) = Some q ->
  truthy (lookup "geo" q) = true ->
  (forall l' s', steps_user_geo W l s = (Returned l', s') ->
     exists q', user (filter (message s')) = Some q'
                /\ has_key "geo" q' = false)
  /\ (drill_plugin W = None \/ geo_plugin W = None ->
      exists s', steps_user_geo W l s = (Returned l, s')
                 /\ user (filter (message s')) = Some (remove "geo" q))
  /\ (forall dr g a found,
        drill_plugin W = Some dr -> geo_plugin W = Some g -> app s = Some a ->
        geo_query g (app_id a) (lookup "geo" (preprocessQuery dr q))
          = Returned found ->
        forall regions, found = VArr regions -> regions <> [] ->
        exists s',
          steps_user_geo W l s
            = (Returned (l ++ [match_step (geo_or g regions)]), s')
          /\ user (filter (message s'))
             = Some (remove "geo" (preprocessQuery dr q)))
  /\ (forall dr g a found,
        drill_plugin W = Some dr -> geo_plugin W = Some g -> app s = Some a ->
        geo_query g (app_id a) (lookup "geo" (preprocessQuery dr q))
          = Returned found ->
        truthy found && truthy (js_length found) = false ->
        lookup "invalidgeo" (invalid_geo_query dr q) = VBool true
        /\ has_key "geo" (invalid_geo_query dr q) = false
        /\ (exists s', steps_user_geo W l s = (Returned l, s')
                       /\ user (filter (message s'))
                          = Some (invalid_geo_query dr q))
        /\ (geos (filter (message s)) = [] ->
            truthy (lookup "message" q) = false ->
            drill (filter (message s)) = None ->
            exists s',
              steps W project s
                = (Returned ([token_step W (message s)]
                             ++ cohort_steps (filter (message s))
                             ++ [match_step (VObj (invalid_geo_query dr q));
                                 project_step (default_project project)]), s')
              /\ user (filter (message s'))
                 = Some (invalid_geo_query dr q))).
Proof.
  intros Hq Hgeo. split; [|split; [|split]].
  - intros l' s' Hrun.
    destruct s as [[id ps [gs cs us ds] uf] ap qu pr rs tr].
    simpl in Hq. subst us.
    unfold steps_user_geo in Hrun. revert Hrun. run_monad. rewrite Hgeo.
    destruct (drill_plugin W) as [dr|]; [destruct (geo_plugin W) as [g|]|].
    + simpl. destruct ap as [a|]; simpl; [|discriminate].
      destruct (geo_query g (app_id a) (lookup "geo" (preprocessQuery dr q)))
        as [found|e]; simpl; [|discriminate].
      destruct (truthy found && truthy (js_length found)); simpl;
        [destruct found; simpl; try discriminate|];
        intros Hrun; inversion Hrun; subst; simpl;
        eexists; (split; [reflexivity | apply has_key_remove]).
    + simpl. intros Hrun; inversion Hrun; subst; simpl.
      eexists; (split; [reflexivity | apply has_key_remove]).
    + simpl. intros Hrun; inversion Hrun; subst; simpl.
      eexists; (split; [reflexivity | apply has_key_remove]).
  - intros Hmiss.
    destruct s as [[id ps [gs cs us ds] uf] ap qu pr rs tr].
    simpl in Hq. subst us.
    unfold steps_user_geo. run_monad. rewrite Hgeo.
    destruct Hmiss as [Hm|Hm]; rewrite Hm.
    + simpl. eexists. split; reflexivity.
    + destruct (drill_plugin W); simpl; eexists; split; reflexivity.
  - intros dr g a found Hdr Hg Ha Hfound regions -> Hsome.
    destruct s as [[id ps [gs cs us ds] uf] ap qu pr rs tr].
    simpl in Hq, Ha. subst us ap.
    unfold steps_user_geo. run_monad. rewrite Hgeo, Hdr, Hg. simpl.
    rewrite Hfound. simpl.
    destruct regions as [|r regions]; [contradiction|]. simpl.
    eexists. split; reflexivity.
  - intros dr g a found Hdr Hg Ha Hfound Hzero.
    split; [apply invalid_geo_query_flag|].
    split; [apply has_key_remove|].
    destruct (steps_user_geo_zero W l s q dr g a found Hq Hgeo Hdr Hg Ha Hfound Hzero)
      as [s1 [Hrun [Hu _]]].
    split; [exists s1; split; assumption|].
    intros Hgs Hmsg Hds.
    destruct (steps_user_geo_zero W
                ([token_step W (message s)] ++ cohort_steps (filter (message s)))
                s q dr g a found Hq Hgeo Hdr Hg Ha Hfound Hzero)
      as [s2 [Hrun2 [Hu2 [_ [_ [Hd2 _]]]]]].
    exists s2. split; [|exact Hu2].
    assert (Hgeos : steps_geos W [token_step W (message s)] s
                    = (Returned [token_step W (message s)], s)).
    { unfold steps_geos, bind, get, ret. rewrite Hgs. reflexivity. }
    assert (Hcoh : steps_cohorts [token_step W (message s)] s
                   = (Returned ([token_step W (message s)]
                                ++ cohort_steps (filter (message s))), s)).
    { unfold steps_cohorts, cohort_steps, bind, get, ret.
      destruct (negb (is_nil (cohorts (filter (message s))))); reflexivity. }
    assert (Hum : forall l0, steps_user_message W l0 s = (Returned l0, s)).
    { intros l0. unfold steps_user_message, the_query, bind, get, ret.
      rewrite Hq, Hmsg. reflexivity. }
    assert (Hquery : the_query s2 = (Returned (invalid_geo_query dr q), s2)).
    { unfold the_query, bind, get, ret. rewrite Hu2. reflexivity. }
    assert (Huser : steps_user W ([token_step W (message s)]
                                  ++ cohort_steps (filter (message s))) s
                    = (Returned (([token_step W (message s)]
                                  ++ cohort_steps (filter (message s)))
                                 ++ [match_step (VObj (invalid_geo_query dr q))]),
                       s2)).
    { unfold steps_user.
      rewrite (bind_returned get _ s s s eq_refl). rewrite Hq.
      rewrite (bind_returned _ _ _ _ _ (Hum _)).
      rewrite (bind_returned _ _ _ _ _ Hrun2).
      rewrite (bind_returned _ _ _ _ _ Hquery).
      rewrite invalid_geo_query_keys. reflexivity. }
    assert (Hdrill : forall l0, steps_drill W l0 s2 = (Returned l0, s2)).
    { intros l0. unfold steps_drill.
      rewrite (bind_returned get _ s2 s2 s2 eq_refl).
      rewrite Hd2, Hds. reflexivity. }
    rewrite steps_split.
    erewrite bind_returned.
    2: { unfold steps_before_drill.
         rewrite (bind_returned get _ s s s eq_refl).
         rewrite (bind_returned _ _ _ _ _ Hgeos).
         rewrite (bind_returned _ _ _ _ _ Hcoh).
         exact Huser. }
    rewrite (bind_returned _ _ _ _ _ (Hdrill _)).
    unfold ret. rewrite <- !app_assoc. reflexivity.
Qed.

Lemma steps_user_geo_invalid_witness :
  exists s',
    steps (pluginWorld (VArr [])) VUndefined
          (stateA (msgWith (mkFilter [] [] (Some userQueryA) None)))
    = (Returned
         [VObj [("$match",
                 VObj [("$or", VArr [VObj [("tkatoken", VBool true)]])])];
          VObj [("$match", VObj [("age", VNum 3); ("invalidgeo", VBool true)])];
          VObj [("$project", VObj [("uid", VNum 1)])]], s')
    /\ user (filter (message s'))
       = Some [("age", VNum 3); ("invalidgeo", VBool true)].
Proof.
  destruct (steps_user_geo_invalid (pluginWorld (VArr [])) VUndefined []
              (stateA (msgWith (mkFilter [] [] (Some userQueryA) None)))
              userQueryA eq_refl eq_refl) as [_ [_ [_ Hzero]]].
  destruct (Hzero drillA (geoA (VArr [])) appA (VArr [])
                  eq_refl eq_refl eq_refl eq_refl eq_refl)
    as [_ [_ [_ Hsteps]]].
  exact (Hsteps eq_refl eq_refl eq_refl).
Defined.

(** ** The queue writer *)



(** A failed write of a batch is surfaced: [flush] throws what the store
    threw, and the queue is as it was. *)
Lemma flush_failure_surfaces (W : World) (b : Batch) (s : State) (e : error) :
  db_insertMany W "push" (buffer b) = Threw e ->
  fst (flush W b s) = Threw e /\ queue (snd (flush W b s)) = queue s.
Proof.
  intros H. unfold flush, await, bind, emit, get, put, ret, throw.
  rewrite H. split; reflexivity.
Qed.

(** ** The scheduling loop *)




(** No mapper returns a value the writer would accept. *)
Lemma mapper_map_falsy (h : Host) (m : MapperClass * Mapper) (u : AppUser)
    (start : Z) (c v : value) :
  mapper_map h m u start c = Returned v -> truthy v = false.
Proof.
  unfold mapper_map, PlainApiMapper_map, CohortsEventsMapper_map, Mapper_map.
  destruct (fst m).
  - destruct (user_tk u); intros H; inversion H; reflexivity.
  - destruct (CohortsEventsMapper_instant h (snd m) u start);
      [|intros H; inversion H; reflexivity].
    destruct (trigger_end (mapper_trigger (snd m))) as [e|].
    + destruct (e <? z); [intros H; inversion H; reflexivity|].
      destruct (user_tk u); intros H; inversion H; reflexivity.
    + destruct (user_tk u); intros H; inversion H; reflexivity.
Qed.

(** ** [SchedulePusher.run] *)




(** ** Cancellation *)

(** The constructor leaves [message] undefined. *)
Lemma PusherPopper_new_no_message (W : World) (t : Trigger) (s s' : State)
    (this : PusherPopper) :
  PusherPopper_new W t s = (Returned this, s') -> pp_message this = None.
Proof.
  unfold PusherPopper_new, bind, get, ret.
  destruct (for_each _ (platforms (message s)) [] s) as [[l|e] s1];
    intros H; inversion H; reflexivity.
Qed.

(** A popper as [Audience.pop] makes it cannot clear anything. *)
Lemma clear_of_new_throws (W : World) (t : Trigger) (s s' : State)
    (this : PusherPopper) :
  PusherPopper_new W t s = (Returned this, s') ->
  forall s1, clear this s1
             = (Threw (TypeError "Cannot read properties of undefined"), s1).
Proof.
  intros H s1. unfold clear.
  rewrite (PusherPopper_new_no_message W t s s' this H). reflexivity.
Qed.

(** C8: [clear] is expected to delete the queued records of the message,
    add the deleted counts to the counters and return the total. A popper
    made by [Audience.pop] throws instead, on reading [this.message], with
    the three queued records of the message still in the queue and no
    call made. Were [message] assigned, the three records would go and 3
    be returned, the per-platform counters being keyed by array index
    ([result.errors.0.cancelled]) rather than by platform. *)
Theorem clear_throws_on_missing_message :
  bind (pop quietWorld plainTrigger) clear stateB
    = (Threw (TypeError "Cannot read properties of undefined"), stateB)
  /\ bind (pop quietWorld plainTrigger)
          (fun this => clear (assign_message msgB this)) stateB
     = (Returned 3,
        mkState msgB (Some appA) [queued "m2" "a" 4] 3
                [("0", "cancelled", 2); ("1", "cancelled", 1)]
                [DbDeleteMany "push" (VObj [("m", VOid "m1"); ("p", VStr "a")]);
                 DbDeleteMany "push" (VObj [("m", VOid "m1"); ("p", VStr "i")]);
                 MessageUpdate
                   (VObj [("$inc",
                           VObj [("result.processed", VNum 3);
                                 ("result.errors.0.cancelled", VNum 2);
                                 ("result.errors.1.cancelled", VNum 1)])])]).
Proof. split; vm_compute; reflexivity. Qed.

(** * Further properties *)

(** ** The Anchored mapper *)

(** X1: whatever the user, date and override, [CohortsEventsMapper.map]
    returns null or undefined, or throws; it throws only for a user
    without a token object. *)
Theorem CohortsEventsMapper_map_outcomes (h : Host) (this : Mapper)
    (user : AppUser) (date : Z) (c : value) :
  match CohortsEventsMapper_map h this user date c with
  | Returned v => v = VNull \/ v = VUndefined
  | Threw _ => user_tk user = None
  end.
Proof.
  unfold CohortsEventsMapper_map, Mapper_map.
  destruct (CohortsEventsMapper_instant h this user date) as [d|]; [|auto].
  destruct (trigger_end (mapper_trigger this)) as [e|].
  - destruct (e <? d); [auto|]. destruct (user_tk user); auto.
  - destruct (user_tk user); auto.
Qed.

(** X2: with a time-of-day offset and a delay that is not negative, the
    instant the Anchored mapper settles on is never before the
    candidate, and it is not in the past when the candidate is at most
    one day old. *)
Theorem CohortsEventsMapper_instant_bounds (h : Host) (this : Mapper)
    (user : AppUser) (date t d : Z) :
  time (mapper_trigger this) = Some t ->
  0 <= delay_ms (mapper_trigger this) ->
  CohortsEventsMapper_instant h this user date = Some d ->
  inTz h this user date t <= d
  /\ (now h - 86400000 <= inTz h this user date t -> now h <= d).
Proof.
  unfold CohortsEventsMapper_instant, delay_ms. intros Ht Hdl.
  rewrite Ht.
  destruct (inTz h this user date t <? now h) eqn:Hpast.
  - apply Z.ltb_lt in Hpast.
    destruct (reschedule (mapper_trigger this)); [|discriminate].
    destruct (delay (mapper_trigger this)) as [dl|].
    + destruct (dl =? 0); simpl; intros H; inversion H; subst; lia.
    + intros H; inversion H; subst; lia.
  - apply Z.ltb_ge in Hpast.
    destruct (delay (mapper_trigger this)) as [dl|].
    + destruct (dl =? 0); simpl; intros H; inversion H; subst; lia.
    + intros H; inversion H; subst; lia.
Qed.

Lemma CohortsEventsMapper_instant_bounds_witness :
  inTz (utcHost 100000000) (mapperA (cohortTrigger true None)) userA 0 32400000
    <= 32400000 + 86400000
  /\ (now (utcHost 100000000) - 86400000
        <= inTz (utcHost 100000000) (mapperA (cohortTrigger true None))
                userA 0 32400000 ->
      now (utcHost 100000000) <= 32400000 + 86400000).
Proof.
  apply (CohortsEventsMapper_instant_bounds (utcHost 100000000)
           (mapperA (cohortTrigger true None)) userA 0 32400000
           (32400000 + 86400000)).
  - reflexivity.
  - vm_compute. discriminate.
  - vm_compute. reflexivity.
Defined.

(** X3: rescheduling adds one day and no more: when the candidate is more
    than a day (and the delay) old, the instant the mapper settles on is
    still in the past. *)
Theorem CohortsEventsMapper_instant_stale (h : Host) (this : Mapper)
    (user : AppUser) (date t : Z) :
  time (mapper_trigger this) = Some t ->
  reschedule (mapper_trigger this) = true ->
  inTz h this user date t + 86400000 + delay_ms (mapper_trigger this) < now h ->
  exists d, CohortsEventsMapper_instant h this user date = Some d /\ d < now h.
Proof.
  unfold CohortsEventsMapper_instant, delay_ms. intros Ht Hre Hold.
  rewrite Ht, Hre.
  destruct (inTz h this user date t <? now h) eqn:Hpast;
    [apply Z.ltb_lt in Hpast | apply Z.ltb_ge in Hpast];
    destruct (delay (mapper_trigger this)) as [dl|];
    try (destruct (dl =? 0) eqn:E; simpl;
         [apply Z.eqb_eq in E; subst dl|]);
    eexists; (split; [reflexivity | lia]).
Qed.

Lemma CohortsEventsMapper_instant_stale_witness :
  exists d,
    CohortsEventsMapper_instant (utcHost 500000000)
      (mapperA (cohortTrigger true None)) userA 0 = Some d
    /\ d < now (utcHost 500000000).
Proof.
  apply (CohortsEventsMapper_instant_stale (utcHost 500000000)
           (mapperA (cohortTrigger true None)) userA 0 32400000).
  - reflexivity.
  - reflexivity.
  - vm_compute. reflexivity.
Defined.

(** ** The scheduling loop *)

(** X4: the two nested loops of [run] never hand a record to the queue
    writer: they end with the batch and the state they started with, or
    throw with the state they started with. *)
Theorem run_loops_never_offers (W : World) (this : PusherPopper) (start : Z)
    (stream : list AppUser) (batch : Batch) (s : State) :
  run_loops W this start stream batch s = (Returned batch, s)
  \/ exists e, run_loops W this start stream batch s = (Threw e, s).
Proof.
  unfold run_loops.
  assert (Hstep : forall u m,
            (push <- lift (mapper_map (host W) m u start (contents this)) ;;
             offer W push batch) s = (Returned batch, s)
            \/ exists e,
                (push <- lift (mapper_map (host W) m u start (contents this)) ;;
                 offer W push batch) s = (Threw e, s)).
  { intros u m. unfold bind, lift.
    destruct (mapper_map (host W) m u start (contents this)) as [v|e] eqn:Hm.
    - apply mapper_map_falsy in Hm. unfold ret, offer. rewrite Hm.
      left. reflexivity.
    - right. exists e. reflexivity. }
  assert (Hinner : forall u ms,
            for_each (fun mapper batch =>
                        push <- lift (mapper_map (host W) mapper u start
                                                 (contents this)) ;;
                        offer W push batch) ms batch s = (Returned batch, s)
            \/ exists e,
                for_each (fun mapper batch =>
                            push <- lift (mapper_map (host W) mapper u start
                                                     (contents this)) ;;
                            offer W push batch) ms batch s = (Threw e, s)).
  { intros u ms. induction ms as [|m ms IH]; simpl; [left; reflexivity|].
    destruct (Hstep u m) as [H|[e H]].
    - rewrite (bind_returned _ _ _ _ _ H). exact IH.
    - rewrite (bind_threw _ _ _ _ _ H). right. exists e. reflexivity. }
  induction stream as [|u stream IH]; simpl; [left; reflexivity|].
  destruct (Hinner u (mappers this)) as [H|[e H]].
  - rewrite (bind_returned _ _ _ _ _ H). exact IH.
  - rewrite (bind_threw _ _ _ _ _ H). right. exists e. reflexivity.
Qed.

(** ** The constructor of pushers and poppers *)

(** The loop over the fields of one platform. *)
Lemma new_mappers_fields (W : World) (t : Trigger) (s : State) (a : App)
    (p : string) (fs : list string) :
  app s = Some a ->
  forall acc,
    for_each
      (fun f acc =>
         a <- this_app ;;
         let m := Mapper_new (host W) a (message s) t p f in
         match kind t with
         | API | Plain => ret (acc ++ [(PlainApi, m)])
         | _ => ret (acc ++ [(CohortsEvents, m)])
         end)
      fs acc s
    = (Returned (acc ++ map (fun f => (mapper_class t,
                                       Mapper_new (host W) a (message s) t p f))
                            fs), s).
Proof.
  intros Ha. induction fs as [|f fs IH]; intros acc; simpl.
  - unfold ret. rewrite app_nil_r. reflexivity.
  - rewrite (bind_returned _ _ s s
               (acc ++ [(mapper_class t, Mapper_new (host W) a (message s) t p f)])).
    + rewrite IH. rewrite <- app_assoc. reflexivity.
    + rewrite (bind_returned _ _ _ _ _ (this_app_loaded s a Ha)).
      unfold mapper_class. destruct (kind t); reflexivity.
Qed.

Lemma new_mappers_platforms (W : World) (t : Trigger) (s : State) (a : App)
    (fs : string -> list string) (ps : list string) :
  app s = Some a ->
  (forall p, In p ps -> platform_fields W p = Some (fs p)) ->
  forall acc,
    new_mappers_loop W t s ps acc
    = (Returned (acc ++ map (fun p => map (fun f => (mapper_class t,
                                 Mapper_new (host W) a (message s) t p f)) (fs p))
                            ps), s).
Proof.
  intros Ha. unfold new_mappers_loop.
  induction ps as [|p ps IH]; intros Hknown acc; simpl.
  - unfold ret. rewrite app_nil_r. reflexivity.
  - rewrite (Hknown p (or_introl eq_refl)).
    rewrite (bind_returned _ _ s s
               (acc ++ [map (fun f => (mapper_class t,
                              Mapper_new (host W) a (message s) t p f)) (fs p)])).
    + rewrite IH by (intros q Hq; apply Hknown; right; exact Hq).
      rewrite <- app_assoc. reflexivity.
    + rewrite (bind_returned _ _ _ _ _
                 (new_mappers_fields W t s a p (fs p) Ha [])).
      reflexivity.
Qed.

Lemma new_mappers_unknown (W : World) (t : Trigger) (s : State) (a : App)
    (p : string) (ps : list string) :
  app s = Some a -> In p ps -> platform_fields W p = None ->
  forall acc,
    new_mappers_loop W t s ps acc
    = (Threw (TypeError "Cannot read properties of undefined"), s).
Proof.
  intros Ha Hin Hp. unfold new_mappers_loop.
  induction ps as [|q ps IH]; intros acc; simpl; [contradiction|].
  destruct (platform_fields W q) as [fs|] eqn:Hq.
  - destruct Hin as [->|Hin]; [congruence|].
    rewrite (bind_returned _ _ s s
               (acc ++ [map (fun f => (mapper_class t,
                              Mapper_new (host W) a (message s) t q f)) fs])).
    + apply IH. exact Hin.
    + rewrite (bind_returned _ _ _ _ _
                 (new_mappers_fields W t s a q fs Ha [])).
      reflexivity.
  - apply bind_threw. reflexivity.
Qed.

(** X5: with the app loaded and every platform of the message known, the
    constructor leaves the state alone and yields one mapper per platform
    and field, in the order of the platforms and of their fields, each of
    the class the trigger's kind selects, with no contents, start, uids or
    message set. *)
Theorem PusherPopper_new_mappers (W : World) (t : Trigger) (s : State)
    (a : App) (fs : string -> list string) :
  app s = Some a ->
  (forall p, In p (platforms (message s)) -> platform_fields W p = Some (fs p)) ->
  PusherPopper_new W t s
    = (Returned (mkPusherPopper t (expected_mappers W s a t fs)
                   VUndefined VUndefined VUndefined None VUndefined None), s).
Proof.
  intros Ha Hknown. unfold PusherPopper_new, expected_mappers.
  rewrite (bind_returned get _ s s s eq_refl).
  erewrite bind_returned.
  - unfold ret. rewrite flat_map_concat_map. reflexivity.
  - exact (new_mappers_platforms W t s a fs _ Ha Hknown []).
Qed.

Lemma PusherPopper_new_mappers_witness :
  PusherPopper_new quietWorld (cohortTrigger true None) stateB
    = (Returned (mkPusherPopper (cohortTrigger true None)
                   [(CohortsEvents,
                     mkMapper (-300) msgB (cohortTrigger true None) "a" "token");
                    (CohortsEvents,
                     mkMapper (-300) msgB (cohortTrigger true None) "i" "token")]
                   VUndefined VUndefined VUndefined None VUndefined None),
       stateB).
Proof.
  apply (PusherPopper_new_mappers quietWorld (cohortTrigger true None) stateB
           appA (fun _ => ["token"])).
  - reflexivity.
  - intros p _. reflexivity.
Defined.

(** X6: with the app loaded, a message naming a platform the platform
    table does not know makes the constructor throw, the state
    untouched. *)
Theorem PusherPopper_new_unknown_platform (W : World) (t : Trigger)
    (s : State) (a : App) (p : string) :
  app s = Some a ->
  In p (platforms (message s)) ->
  platform_fields W p = None ->
  PusherPopper_new W t s
    = (Threw (TypeError "Cannot read properties of undefined"), s).
Proof.
  intros Ha Hin Hp. unfold PusherPopper_new.
  rewrite (bind_returned get _ s s s eq_refl).
  apply bind_threw.
  exact (new_mappers_unknown W t s a p _ Ha Hin Hp []).
Qed.

Lemma PusherPopper_new_unknown_platform_witness :
  PusherPopper_new worldOnlyA plainTrigger stateB
    = (Threw (TypeError "Cannot read properties of undefined"), stateB).
Proof.
  apply (PusherPopper_new_unknown_platform worldOnlyA plainTrigger stateB
           appA "i").
  - reflexivity.
  - simpl. right. left. reflexivity.
  - reflexivity.
Defined.

(** ** Cancellation with a message at hand *)

Lemma delete_loop (id : value) (ps : list string) :
  forall (acc : list Z) (s : State),
    for_each (fun p acc => n <- deleteMany id p ;; ret (acc ++ [n])) ps acc s
    = (Returned (acc ++ del_counts id ps (queue s)),
       mkState (message s) (app s) (remaining id ps (queue s)) (processed s)
               (responses s)
               (trace s ++ map (fun p => DbDeleteMany "push"
                                           (VObj [("m", id); ("p", VStr p)]))
                               ps)).
Proof.
  induction ps as [|p ps IH]; intros acc s; simpl.
  - unfold ret. rewrite !app_nil_r. destruct s; reflexivity.
  - unfold bind at 1. unfold deleteMany at 1, bind, emit, get, put, ret.
    simpl. rewrite IH. simpl. rewrite <- !app_assoc. reflexivity.
Qed.

Lemma mirror_loop (l : list (string * Z)) :
  forall s : State,
    for_each
      (fun pd (_ : unit) =>
         s <- get ;;
         put (mkState (message s) (app s) (queue s) (processed s + snd pd)
                      (responses s ++ [(fst pd, "cancelled", snd pd)])
                      (trace s)))
      l tt s
    = (Returned tt,
       mkState (message s) (app s) (queue s)
               (fold_left Z.add (map snd l) (processed s))
               (responses s ++ map (fun pd => (fst pd, "cancelled", snd pd)) l)
               (trace s)).
Proof.
  induction l as [|pd l IH]; intros s; simpl.
  - unfold ret. rewrite app_nil_r. destruct s; reflexivity.
  - unfold bind at 1. unfold bind, get, put. simpl. rewrite IH. simpl.
    rewrite <- app_assoc. reflexivity.
Qed.

Lemma fold_add_shift (l : list Z) (a : Z) :
  fold_left Z.add l a = a + fold_left Z.add l 0.
Proof.
  revert a. induction l as [|x l IH]; intros a; simpl; [lia|].
  rewrite (IH (a + x)), (IH x). lia.
Qed.

Lemma map_snd_combine_same {A B : Type} (l1 : list A) (l2 : list B) :
  length l1 = length l2 -> map snd (combine l1 l2) = l2.
Proof.
  revert l2. induction l1 as [|a l1 IH]; intros [|b l2] H; simpl in *;
    try discriminate; [reflexivity|].
  f_equal. apply IH. congruence.
Qed.

Lemma map_snd_indices (l : list Z) : map snd (indices l) = l.
Proof.
  unfold indices. apply map_snd_combine_same.
  rewrite length_map, length_seq. reflexivity.
Qed.

(** [clear] with [this.message] set, in full. *)
Lemma clear_with_message (this : PusherPopper) (m : Message) (s : State) :
  pp_message this = Some m ->
  clear this s
    = (Returned (sum (del_counts (_id m) (platforms m) (queue s))),
       cleared m s).
Proof.
  intros Hm. unfold clear, cleared. rewrite Hm.
  rewrite (bind_returned _ _ _ _ _ (delete_loop (_id m) (platforms m) [] s)).
  simpl app.
  destruct (del_counts (_id m) (platforms m) (queue s)) as [|n ns] eqn:Hd.
  - simpl. unfold bind, ret. simpl. rewrite app_nil_r. reflexivity.
  - simpl negb. cbv iota. unfold message_update.
    unfold bind at 1. unfold bind at 1. unfold emit at 1.
    rewrite mirror_loop.
    cbn [message app queue processed responses trace]. unfold ret.
    change (@nil Z ++ n :: ns) with (n :: ns).
    rewrite map_snd_indices. unfold sum. cbn [is_nil].
    rewrite (fold_add_shift (n :: ns) (processed s)).
    rewrite <- app_assoc. reflexivity.
Qed.

Lemma filter_filter {A : Type} (g h : A -> bool) (l : list A) :
  List.filter h (List.filter g l) = List.filter (fun x => g x && h x) l.
Proof.
  induction l as [|x l IH]; simpl; [reflexivity|].
  destruct (g x); simpl; [destruct (h x)|]; rewrite IH; reflexivity.
Qed.

Lemma remaining_filter (id : value) (ps : list string) (q : list value) :
  remaining id ps q
  = List.filter (fun d => negb (existsb (fun p => queued_for id p d) ps)) q.
Proof.
  revert q. induction ps as [|p ps IH]; intros q; simpl.
  - induction q as [|d q IHq]; simpl; [reflexivity | f_equal; exact IHq].
  - rewrite IH, filter_filter. apply filter_ext.
    intros d. rewrite negb_orb. reflexivity.
Qed.

Lemma length_filter_or {A : Type} (g h : A -> bool) (l : list A) :
  length (List.filter (fun x => g x || h x) l)
  = (length (List.filter g l)
     + length (List.filter h (List.filter (fun x => negb (g x)) l)))%nat.
Proof.
  induction l as [|x l IH]; simpl; [reflexivity|].
  destruct (g x); simpl.
  - rewrite IH. reflexivity.
  - destruct (h x); simpl; rewrite IH; lia.
Qed.

Lemma sum_cons (n : Z) (ns : list Z) : sum (n :: ns) = n + sum ns.
Proof. unfold sum. simpl. rewrite (fold_add_shift ns n). lia. Qed.

Lemma sum_del_counts (id : value) (ps : list string) (q : list value) :
  sum (del_counts id ps q)
  = Z.of_nat (length (List.filter
                        (fun d => existsb (fun p => queued_for id p d) ps) q)).
Proof.
  revert q. induction ps as [|p ps IH]; intros q; simpl.
  - induction q as [|d q IHq]; simpl; [reflexivity | exact IHq].
  - rewrite sum_cons, IH, length_filter_or. lia.
Qed.

Lemma del_counts_nil (id : value) (ps : list string) (q : list value) :
  is_nil (del_counts id ps q) = is_nil ps.
Proof. destruct ps; reflexivity. Qed.

Lemma clear_counts (this : PusherPopper) (m : Message) (s : State) :
  pp_message this = Some m ->
  fst (clear this s)
    = Returned (Z.of_nat (length (List.filter (targeted m) (queue s))))
  /\ queue (snd (clear this s))
     = List.filter (fun d => negb (targeted m d)) (queue s)
  /\ processed (snd (clear this s))
     = processed s + Z.of_nat (length (List.filter (targeted m) (queue s))).
Proof.
  intros Hm. rewrite (clear_with_message this m s Hm).
  unfold cleared, targeted. cbn [fst snd queue processed].
  rewrite del_counts_nil, sum_del_counts, remaining_filter.
  repeat split.
  destruct (platforms m); simpl; [|reflexivity].
  assert (H : List.filter (fun _ : value => false) (queue s) = [])
    by (induction (queue s); simpl; auto).
  rewrite H. simpl. lia.
Qed.

(** X7: with [this.message] at hand, [clear] removes from the queue
    exactly the records of the message for its platforms, leaves every
    other record where it was, returns how many it removed, and adds as
    many to the in-memory processed counter. *)
Theorem clear_removes_targeted (this : PusherPopper) (m : Message)
    (s : State) :
  pp_message this = Some m ->
  fst (clear this s)
    = Returned (Z.of_nat (length (List.filter (targeted m) (queue s))))
  /\ queue (snd (clear this s))
     = List.filter (fun d => negb (targeted m d)) (queue s)
  /\ processed (snd (clear this s))
     = processed s + Z.of_nat (length (List.filter (targeted m) (queue s))).
Proof. exact (clear_counts this m s). Qed.

Lemma clear_removes_targeted_witness :
  fst (clear (assign_message msgB
                (mkPusherPopper plainTrigger [] VUndefined VUndefined
                                VUndefined None VUndefined None)) stateB)
    = Returned 3
  /\ queue (snd (clear (assign_message msgB
                (mkPusherPopper plainTrigger [] VUndefined VUndefined
                                VUndefined None VUndefined None)) stateB))
     = [queued "m2" "a" 4]
  /\ processed (snd (clear (assign_message msgB
                (mkPusherPopper plainTrigger [] VUndefined VUndefined
                                VUndefined None VUndefined None)) stateB))
     = 3.
Proof.
  exact (clear_removes_targeted
           (assign_message msgB
              (mkPusherPopper plainTrigger [] VUndefined VUndefined
                              VUndefined None VUndefined None))
           msgB stateB eq_refl).
Defined.

Lemma filter_none {A : Type} (g : A -> bool) (l : list A) :
  (forall x, In x l -> g x = false) -> List.filter g l = [].
Proof.
  induction l as [|x l IH]; intros H; simpl; [reflexivity|].
  rewrite (H x (or_introl eq_refl)). apply IH.
  intros y Hy. apply H. right. exact Hy.
Qed.

Lemma filter_all {A : Type} (g : A -> bool) (l : list A) :
  (forall x, In x l -> g x = true) -> List.filter g l = l.
Proof.
  induction l as [|x l IH]; intros H; simpl; [reflexivity|].
  rewrite (H x (or_introl eq_refl)). f_equal. apply IH.
  intros y Hy. apply H. right. exact Hy.
Qed.

(** X8: with [this.message] at hand and nothing queued for it, [clear]
    returns 0 and leaves the queue and the processed counter alone. For
    a message without platforms it does nothing at all; for one with
    platforms it still asks the store to delete, once per platform, and
    still sends one increment update to the message. *)
Theorem clear_nothing_queued (this : PusherPopper) (m : Message) (s : State) :
  pp_message this = Some m ->
  (forall d, In d (queue s) -> targeted m d = false) ->
  fst (clear this s) = Returned 0
  /\ queue (snd (clear this s)) = queue s
  /\ processed (snd (clear this s)) = processed s
  /\ (platforms m = [] -> clear this s = (Returned 0, s))
  /\ (platforms m <> [] ->
      trace (snd (clear this s))
      = trace s ++ delete_calls m
        ++ [MessageUpdate
              (VObj [("$inc",
                      VObj (clear_inc (del_counts (_id m) (platforms m)
                                                  (queue s))))])]).
Proof.
  intros Hm Hnone.
  destruct (clear_counts this m s Hm) as [Hr [Hq Hp]].
  rewrite (filter_none _ _ Hnone) in Hr, Hp.
  split; [exact Hr|].
  split; [rewrite Hq; apply filter_all; intros d Hd;
          rewrite (Hnone d Hd); reflexivity|].
  split; [rewrite Hp; simpl; lia|].
  rewrite (clear_with_message this m s Hm). unfold cleared, delete_calls.
  split.
  - intros Hps. rewrite Hps. simpl. rewrite app_nil_r.
    destruct s; reflexivity.
  - intros Hps. cbn [snd trace]. rewrite del_counts_nil.
    destruct (platforms m) as [|p ps]; [contradiction|].
    reflexivity.
Qed.

Lemma clear_nothing_queued_witness :
  trace (snd (clear (assign_message msgB
                (mkPusherPopper plainTrigger [] VUndefined VUndefined
                                VUndefined None VUndefined None))
                stateB_idle))
  = trace stateB_idle ++ delete_calls msgB
    ++ [MessageUpdate
          (VObj [("$inc",
                  VObj [("result.processed", VNum 0);
                        ("result.errors.0.cancelled", VNum 0);
                        ("result.errors.1.cancelled", VNum 0)])])].
Proof.
  refine (proj2 (proj2 (proj2 (proj2
            (clear_nothing_queued
               (assign_message msgB
                  (mkPusherPopper plainTrigger [] VUndefined VUndefined
                                  VUndefined None VUndefined None))
               msgB stateB_idle eq_refl _)))) _).
  - intros d [<-|[]]. reflexivity.
  - discriminate.
Defined.

(** One round of the loop that builds the [$inc] document. *)
Lemma clear_inc_processed_step (l : list (string * Z)) :
  forall (inc : obj) (a : Z),
    lookup "result.processed" inc = VNum a ->
    lookup "result.processed"
      (fold_left
         (fun inc pd =>
            let inc := assign "result.processed"
                              (VNum (count_or0 "result.processed" inc + snd pd))
                              inc in
            let k := String.append "result.errors."
                       (String.append (fst pd) ".cancelled") in
            assign k (VNum (count_or0 k inc + snd pd)) inc)
         l inc)
    = VNum (a + sum (map snd l)).
Proof.
  induction l as [|pd l IH]; intros inc a Ha; simpl.
  - rewrite Ha. f_equal. unfold sum. simpl. lia.
  - rewrite (IH _ (a + snd pd)).
    + rewrite sum_cons. f_equal. lia.
    + rewrite lookup_assign_other by reflexivity.
      rewrite lookup_assign_same. unfold count_or0. rewrite Ha, or0_id.
      reflexivity.
Qed.

(** X9: the increment of [result.processed] that [clear] sends to the
    message store is the sum of the counts the deletes reported, that is
    the number [clear] returns. *)
Theorem clear_inc_processed (deleted : list Z) :
  deleted <> [] ->
  lookup "result.processed" (clear_inc deleted) = VNum (sum deleted).
Proof.
  intros Hne. unfold clear_inc.
  pose proof (map_snd_indices deleted) as Hsnd.
  destruct (indices deleted) as [|pd l] eqn:Hi.
  - simpl in Hsnd. congruence.
  - simpl fold_left.
    rewrite (clear_inc_processed_step l _ (0 + snd pd)).
    + rewrite <- Hsnd. simpl map. rewrite sum_cons. reflexivity.
    + reflexivity.
Qed.

Lemma clear_inc_processed_witness :
  lookup "result.processed" (clear_inc [2; 1]) = VNum (sum [2; 1]).
Proof. apply (clear_inc_processed [2; 1]). discriminate. Defined.

(** ** [terminate] *)

(** X10: a popper as the constructor makes it cannot terminate a message:
    [terminate] throws on [clear], and neither deletes a record nor sends
    the update that would mark the message done. *)
Theorem terminate_of_new_throws (W : World) (t : Trigger) (s0 s1 : State)
    (this : PusherPopper) (E : ErrorApi) (msg : option string) (s : State) :
  PusherPopper_new W t s0 = (Returned this, s1) ->
  terminate E msg this s
    = (Threw (TypeError "Cannot read properties of undefined"), s).
Proof.
  intros Hnew. unfold terminate. apply bind_threw.
  apply (clear_of_new_throws W t s0 s1 this Hnew).
Qed.

Lemma terminate_of_new_throws_witness :
  terminate errorApiA None
            (mkPusherPopper plainTrigger
               [(PlainApi, mkMapper (-300) msgB plainTrigger "a" "token");
                (PlainApi, mkMapper (-300) msgB plainTrigger "i" "token")]
               VUndefined VUndefined VUndefined None VUndefined None)
            stateB
    = (Threw (TypeError "Cannot read properties of undefined"), stateB).
Proof.
  apply (terminate_of_new_throws quietWorld plainTrigger stateB stateB).
  reflexivity.
Defined.

(** X11: with [this.message] at hand, [terminate] does what [clear] does
    and returns what [clear] returns, and then sends one more update,
    which sets the state to [Done | Error] and records the serialized
    error; the default text is [Terminated]. *)
Theorem terminate_after_clear (E : ErrorApi) (msg : option string)
    (this : PusherPopper) (m : Message) (s : State) :
  pp_message this = Some m ->
  exists n s1,
    clear this s = (Returned n, s1)
    /\ fst (terminate E msg this s) = Returned n
    /\ queue (snd (terminate E msg this s)) = queue s1
    /\ processed (snd (terminate E msg this s)) = processed s1
    /\ trace (snd (terminate E msg this s))
       = trace s1
         ++ [terminate_update E
               (match msg with Some x => x | None => "Terminated" end)].
Proof.
  intros Hm. rewrite (clear_with_message this m s Hm).
  eexists. eexists. split; [reflexivity|].
  unfold terminate.
  rewrite (bind_returned _ _ _ _ _ (clear_with_message this m s Hm)).
  unfold bind, message_update, emit, ret. rewrite Hm. simpl.
  repeat split.
Qed.

Lemma terminate_after_clear_witness :
  exists n s1,
    clear (assign_message msgB
             (mkPusherPopper plainTrigger [] VUndefined VUndefined
                             VUndefined None VUndefined None)) stateB
      = (Returned n, s1)
    /\ fst (terminate errorApiA None
              (assign_message msgB
                 (mkPusherPopper plainTrigger [] VUndefined VUndefined
                                 VUndefined None VUndefined None)) stateB)
       = Returned n
    /\ queue (snd (terminate errorApiA None
              (assign_message msgB
                 (mkPusherPopper plainTrigger [] VUndefined VUndefined
                                 VUndefined None VUndefined None)) stateB))
       = queue s1
    /\ processed (snd (terminate errorApiA None
              (assign_message msgB
                 (mkPusherPopper plainTrigger [] VUndefined VUndefined
                                 VUndefined None VUndefined None)) stateB))
       = processed s1
    /\ trace (snd (terminate errorApiA None
              (assign_message msgB
                 (mkPusherPopper plainTrigger [] VUndefined VUndefined
                                 VUndefined None VUndefined None)) stateB))
       = trace s1 ++ [terminate_update errorApiA "Terminated"].
Proof.
  exact (terminate_after_clear errorApiA None
           (assign_message msgB
              (mkPusherPopper plainTrigger [] VUndefined VUndefined
                              VUndefined None VUndefined None))
           msgB stateB eq_refl).
Defined.

(** ** [getApp] *)

(** X12: [getApp] caches: calling it a second time changes nothing, so
    two calls in a row behave as one (the store is asked at most once,
    and not at all when the app is already there). *)
Theorem getApp_twice (A : AppsStore) (s : State) :
  bind (getApp A) (fun _ => getApp A) s = getApp A s.
Proof.
  unfold getApp, bind, get, await, emit, set_app, ret, throw.
  destruct (app s) as [a|] eqn:Ha; simpl.
  - rewrite Ha. reflexivity.
  - destruct (findOne A (message_app A (message s))) as [[a|]|e];
      reflexivity.
Qed.

(** X13: when [getApp] returns an app, that app is the one it leaves in
    [this.app]; when it throws, [this.app] is still unset. *)
Theorem getApp_sets_app (A : AppsStore) (s : State) :
  match fst (getApp A s) with
  | Returned a => app (snd (getApp A s)) = Some a
  | Threw _ => app (snd (getApp A s)) = None
  end.
Proof.
  unfold getApp, bind, get, await, emit, set_app, ret, throw.
  destruct (app s) as [a|] eqn:Ha; simpl.
  - exact Ha.
  - destruct (findOne A (message_app A (message s))) as [[a|]|e]; simpl;
      auto.
Qed.

(** X14: with no app loaded and none in the store under the message's
    app id, [getApp] asks the store once and throws the error
    [App <id> not found]. *)
Theorem getApp_not_found (A : AppsStore) (s : State) :
  app s = None ->
  findOne A (message_app A (message s)) = Returned None ->
  fst (getApp A s)
    = Threw (PushError (String.append "App "
               (String.append (to_string (message_app A (message s)))
                              " not found")))
  /\ trace (snd (getApp A s))
     = trace s ++ [DbFind "apps" (message_app A (message s))].
Proof.
  intros Ha Hf.
  unfold getApp, bind, get, await, emit, set_app, ret, throw.
  rewrite Ha. simpl. rewrite Hf. split; reflexivity.
Qed.

Lemma getApp_not_found_witness :
  fst (getApp appsNone (stateNoApp msgA))
    = Threw (PushError "App app1 not found")
  /\ trace (snd (getApp appsNone (stateNoApp msgA)))
     = [DbFind "apps" (VOid "app1")].
Proof.
  apply (getApp_not_found appsNone (stateNoApp msgA)); reflexivity.
Defined.

(** ** The shape of the compiled list *)

Lemma extends_ret (l : list value) : extends (ret l) l.
Proof.
  intros s l' s' H. inversion H; subst. exists []. rewrite app_nil_r. auto.
Qed.

Lemma extends_ret_match (l : list value) (body : value) :
  extends (ret (l ++ [match_step body])) l.
Proof.
  intros s l' s' H. inversion H; subst. exists [match_step body].
  split; [reflexivity|]. constructor; [reflexivity | constructor].
Qed.

Lemma extends_throw (e : error) (l : list value) : extends (throw e) l.
Proof. intros s l' s' H. discriminate H. Qed.

Lemma extends_bind {A : Type} (c : M A) (k : A -> M (list value))
    (l : list value) :
  (forall a, extends (k a) l) -> extends (bind c k) l.
Proof.
  intros Hk s l' s' H. unfold bind in H.
  destruct (c s) as [[a|e] s1]; [|discriminate].
  exact (Hk a s1 l' s' H).
Qed.

Lemma extends_chain (c : M (list value)) (k : list value -> M (list value))
    (l : list value) :
  extends c l -> (forall l1, extends (k l1) l1) -> extends (bind c k) l.
Proof.
  intros Hc Hk s l' s' H. unfold bind in H.
  destruct (c s) as [[l1|e] s1] eqn:Hcs; [|discriminate].
  destruct (Hc s l1 s1 Hcs) as [x1 [-> F1]].
  destruct (Hk _ s1 l' s' H) as [x2 [-> F2]].
  exists (x1 ++ x2). rewrite app_assoc. split; [reflexivity|].
  apply Forall_app. split; assumption.
Qed.

Ltac extends_step :=
  match goal with
  | |- extends (ret (?l ++ [match_step _])) ?l => apply extends_ret_match
  | |- extends (ret ?l) ?l => apply extends_ret
  | |- extends (throw _) _ => apply extends_throw
  | |- extends (bind _ _) _ => apply extends_bind; intros
  | |- extends (if ?b then _ else _) _ => destruct b
  | |- extends (match ?x with _ => _ end) _ => destruct x
  end.

Lemma extends_steps_geos (W : World) (l : list value) :
  extends (steps_geos W l) l.
Proof. unfold steps_geos. repeat extends_step. Qed.

Lemma extends_steps_cohorts (l : list value) : extends (steps_cohorts l) l.
Proof. unfold steps_cohorts. repeat extends_step. Qed.

Lemma extends_steps_user_message (W : World) (l : list value) :
  extends (steps_user_message W l) l.
Proof. unfold steps_user_message. repeat extends_step. Qed.

Lemma extends_steps_user_geo (W : World) (l : list value) :
  extends (steps_user_geo W l) l.
Proof.
  unfold steps_user_geo. apply extends_bind; intros query.
  destruct (truthy (lookup "geo" query)); [|apply extends_ret].
  apply extends_chain.
  - destruct (drill_plugin W) as [dr|]; [|apply extends_ret].
    destruct (geo_plugin W) as [g|]; [|apply extends_ret].
    unfold geo_or. repeat extends_step.
  - intros l1. repeat extends_step.
Qed.

Lemma extends_steps_user (W : World) (l : list value) :
  extends (steps_user W l) l.
Proof.
  unfold steps_user. apply extends_bind; intros s.
  destruct (user (filter (message s))); [|apply extends_ret].
  apply extends_chain; [apply extends_steps_user_message|]. intros l1.
  apply extends_chain; [apply extends_steps_user_geo|]. intros l2.
  repeat extends_step.
Qed.

Lemma extends_steps_drill (W : World) (l : list value) :
  extends (steps_drill W l) l.
Proof.
  unfold steps_drill, steps_drill_fetch. repeat extends_step.
Qed.

(** X15: whenever [steps] succeeds, the list it returns begins with the
    token-presence restriction, ends with the projection, and everything
    in between is a [$match] restriction. *)
Theorem steps_shape (W : World) (project : value) (s s' : State)
    (l : list value) :
  steps W project s = (Returned l, s') ->
  exists mid,
    l = token_step W (message s) :: mid
          ++ [project_step (default_project project)]
    /\ Forall (fun v => is_match_step v = true) mid.
Proof.
  intros H. rewrite steps_split in H. unfold bind in H.
  destruct (steps_before_drill W s) as [[l1|e] s1] eqn:H1; [|discriminate].
  destruct (steps_drill W l1 s1) as [[l2|e] s2] eqn:H2; [|discriminate].
  inversion H; subst. clear H.
  unfold steps_before_drill in H1.
  rewrite (bind_returned get _ s s s eq_refl) in H1.
  apply (extends_chain (steps_geos W [token_step W (message s)])
           (fun l1 => l2 <- steps_cohorts l1 ;; steps_user W l2)
           [token_step W (message s)]
           (extends_steps_geos W _)
           (fun l1 => extends_chain (steps_cohorts l1) (steps_user W) l1
                        (extends_steps_cohorts l1) (extends_steps_user W)))
    in H1.
  destruct H1 as [x1 [-> F1]].
  destruct (extends_steps_drill W _ s1 l2 s' H2) as [x2 [-> F2]].
  exists (x1 ++ x2). split.
  - simpl. rewrite <- !app_assoc. reflexivity.
  - apply Forall_app. split; assumption.
Qed.

Lemma steps_shape_witness :
  exists mid,
    [VObj [("$match", VObj [("$or", VArr [VObj [("tkatoken", VBool true)]])])];
     VObj [("$match", VObj [("chr.c1.in", VStr "true");
                            ("chr.c2.in", VStr "true")])];
     VObj [("$project", VObj [("uid", VNum 1)])]]
    = token_step (pluginWorld (VArr []))
        (message (stateA (msgWith (mkFilter [] [] None
                            (Some (cohortOnly [VStr "c1"; VStr "c2"]))))))
      :: mid ++ [project_step (default_project VUndefined)]
    /\ Forall (fun v => is_match_step v = true) mid.
Proof.
  apply (steps_shape (pluginWorld (VArr [])) VUndefined
           (stateA (msgWith (mkFilter [] [] None
                               (Some (cohortOnly [VStr "c1"; VStr "c2"])))))
           (stateA (msgWith (mkFilter [] [] None
                               (Some (cohortOnly [VStr "c1"; VStr "c2"])))))).
  reflexivity.
Defined.

(** The geo block reads the filter and never edits it. *)
Lemma steps_geos_message (W : World) (l : list value) (s : State) :
  message (snd (steps_geos W l s)) = message s
  /\ app (snd (steps_geos W l s)) = app s.
Proof.
  unfold steps_geos, bind, get, await, emit, ret, throw.
  destruct (negb (is_nil (geos (filter (message s))))); simpl; [|auto].
  destruct (geo_plugin W) as [g|]; simpl; [|auto].
  destruct (db_find W "geos" _); simpl; auto.
Qed.

(** X16: for a message whose filter lists cohorts, every successful
    compilation contains one restriction in which the membership marker
    [chr.<id>.in] of each listed cohort is ['true']. *)
Theorem steps_cohorts_restriction (W : World) (project : value)
    (s s' : State) (l : list value) :
  cohorts (filter (message s)) <> [] ->
  steps W project s = (Returned l, s') ->
  In (match_step (VObj (mark_all (VStr "true")
                          (cohorts (filter (message s))) []))) l
  /\ (forall id, In id (cohorts (filter (message s))) ->
        lookup (marker id)
               (mark_all (VStr "true") (cohorts (filter (message s))) [])
        = VStr "true").
Proof.
  intros Hne H. split; [|intros id Hin; apply mark_all_lookup; exact Hin].
  rewrite steps_split in H. unfold bind in H.
  destruct (steps_before_drill W s) as [[l1|e] s1] eqn:H1; [|discriminate].
  destruct (steps_drill W l1 s1) as [[l2|e] s2] eqn:H2; [|discriminate].
  inversion H; subst. clear H.
  destruct (extends_steps_drill W _ s1 l2 s' H2) as [x2 [-> _]].
  apply in_or_app. left. apply in_or_app. left.
  unfold steps_before_drill in H1.
  rewrite (bind_returned get _ s s s eq_refl) in H1.
  unfold bind in H1.
  pose proof (steps_geos_message W [token_step W (message s)] s) as [Hm _].
  destruct (steps_geos W [token_step W (message s)] s) as [[l0|e] s0];
    [|discriminate].
  simpl in Hm.
  assert (Hc : steps_cohorts l0 s0
               = (Returned (l0 ++ [match_step (VObj (mark_all (VStr "true")
                                     (cohorts (filter (message s))) []))]), s0)).
  { unfold steps_cohorts, bind, get, ret. rewrite Hm.
    destruct (cohorts (filter (message s))); [contradiction | reflexivity]. }
  rewrite Hc in H1.
  destruct (extends_steps_user W _ s0 l1 s1 H1) as [x1 [-> _]].
  apply in_or_app. left. apply in_or_app. right. left. reflexivity.
Qed.

Lemma steps_cohorts_restriction_witness :
  In (match_step (VObj (mark_all (VStr "true") [VStr "c9"] [])))
     [VObj [("$match", VObj [("$or", VArr [VObj [("tkatoken", VBool true)]])])];
      VObj [("$match", VObj [("chr.c9.in", VStr "true")])];
      VObj [("$project", VObj [("uid", VNum 1)])]]
  /\ (forall id, In id [VStr "c9"] ->
        lookup (marker id) (mark_all (VStr "true") [VStr "c9"] [])
        = VStr "true").
Proof.
  apply (steps_cohorts_restriction quietWorld VUndefined
           (stateA (msgWith (mkFilter [] [VStr "c9"] None None)))
           (stateA (msgWith (mkFilter [] [VStr "c9"] None None)))).
  - discriminate.
  - reflexivity.
Defined.

(** ** The message sub-query of the user query *)

(** [filterMessage] on a condition with [$in] or [$nin] throws before any
    call, on reading [this.db.ObjectID]. *)
Lemma filterMessage_in_throws (W : World) (min : value) (s : State) :
  truthy (prop "$in" min) || truthy (prop "$nin" min) = true ->
  filterMessage W min s
    = (Threw (TypeError "Cannot read properties of undefined"), s).
Proof.
  intros H. unfold filterMessage, bind, ret, throw.
  destruct (truthy (prop "$in" min)); [reflexivity|].
  simpl in H. rewrite H. reflexivity.
Qed.

(** X17: a user query whose [message] condition has the form
    [{$in: ..}] or [{$nin: ..}] cannot be compiled. With no geo regions
    in the filter (or no geo plugin), [steps] throws a TypeError without
    a single call made, and the query keeps its [message] key. *)
Theorem steps_message_in_throws (W : World) (project : value) (s : State)
    (q : obj) :
  user (filter (message s)) = Some q ->
  truthy (prop "$in" (lookup "message" q))
    || truthy (prop "$nin" (lookup "message" q)) = true ->
  geos (filter (message s)) = [] \/ geo_plugin W = None ->
  steps W project s
    = (Threw (TypeError "Cannot read properties of undefined"), s).
Proof.
  intros Hq Hin Hgeo.
  assert (Htruthy : truthy (lookup "message" q) = true).
  { destruct (lookup "message" q); simpl in *; try discriminate; reflexivity. }
  rewrite steps_split. apply bind_threw.
  unfold steps_before_drill.
  rewrite (bind_returned get _ s s s eq_refl).
  assert (Hg : steps_geos W [token_step W (message s)] s
               = (Returned [token_step W (message s)], s)).
  { unfold steps_geos, bind, get, ret.
    destruct Hgeo as [Hg|Hg]; rewrite Hg; [reflexivity|].
    destruct (negb (is_nil (geos (filter (message s))))); reflexivity. }
  rewrite (bind_returned _ _ _ _ _ Hg).
  assert (Hc : exists l1, steps_cohorts [token_step W (message s)] s
                          = (Returned l1, s)).
  { unfold steps_cohorts, bind, get, ret.
    destruct (negb (is_nil (cohorts (filter (message s)))));
      eexists; reflexivity. }
  destruct Hc as [l1 Hc]. rewrite (bind_returned _ _ _ _ _ Hc).
  unfold steps_user. rewrite (bind_returned get _ s s s eq_refl). rewrite Hq.
  apply bind_threw. unfold steps_user_message.
  assert (Hquery : the_query s = (Returned q, s)).
  { unfold the_query, bind, get, ret. rewrite Hq. reflexivity. }
  rewrite (bind_returned _ _ _ _ _ Hquery). rewrite Htruthy.
  apply bind_threw. apply filterMessage_in_throws. exact Hin.
Qed.

Lemma steps_message_in_throws_witness :
  steps quietWorld VUndefined
        (stateA (msgWith (mkFilter [] [] 
                   (Some [("message", VObj [("$in", VArr [VOid "m0"])])])
                   None)))
    = (Threw (TypeError "Cannot read properties of undefined"),
       stateA (msgWith (mkFilter [] []
                   (Some [("message", VObj [("$in", VArr [VOid "m0"])])])
                   None))).
Proof.
  apply (steps_message_in_throws quietWorld VUndefined _
           [("message", VObj [("$in", VArr [VOid "m0"])])]).
  - reflexivity.
  - reflexivity.
  - left. reflexivity.
Defined.

(** X18: for a [message] condition that is a plain list of ids and with
    the app loaded, the message block asks the history collection
    [push_<app id>] once, for the records whose first interaction entry is
    one of the ids. When the store answers, the block adds a restriction
    of [uid] to the documents found and removes the [message] key from
    the query; when the store fails, the error is passed on and the query
    keeps the key. *)
Theorem steps_user_message_ids (W : World) (l : list value) (s : State)
    (q : obj) (ids : list value) (a : App) :
  user (filter (message s)) = Some q ->
  lookup "message" q = VArr ids ->
  app s = Some a ->
  trace (snd (steps_user_message W l s))
    = trace s ++ [DbFind (String.append "push_" (to_string (app_id a)))
                         (message_ids_query ids)]
  /\ match db_find W (String.append "push_" (to_string (app_id a)))
                   (message_ids_query ids) with
     | Returned docs =>
         fst (steps_user_message W l s)
           = Returned (l ++ [match_step
                               (VObj [("uid", VObj [("$in", VArr docs)])])])
         /\ user (filter (message (snd (steps_user_message W l s))))
            = Some (remove "message" q)
     | Threw e =>
         fst (steps_user_message W l s) = Threw e
         /\ user (filter (message (snd (steps_user_message W l s)))) = Some q
     end.
Proof.
  intros Hq Hm Ha.
  destruct s as [[id ps [gs cs us ds] uf] ap qu pr rs tr].
  simpl in Hq, Ha. subst us ap.
  unfold steps_user_message, filterMessage, message_ids_query.
  run_monad. rewrite Hm. simpl.
  match goal with
  | |- context [db_find W ?c ?x] => destruct (db_find W c x)
  end; simpl; repeat split.
Qed.

Lemma steps_user_message_ids_witness :
  fst (steps_user_message historyWorld []
         (stateA (msgWith (mkFilter [] []
                    (Some [("message", VArr [VOid "m0"]); ("age", VNum 3)])
                    None))))
    = Returned [match_step
                  (VObj [("uid", VObj [("$in",
                                        VArr [VObj [("_id", VStr "u7")]])])])]
  /\ user (filter (message (snd (steps_user_message historyWorld []
         (stateA (msgWith (mkFilter [] []
                    (Some [("message", VArr [VOid "m0"]); ("age", VNum 3)])
                    None)))))))
     = Some [("age", VNum 3)].
Proof.
  exact (proj2 (steps_user_message_ids historyWorld []
           (stateA (msgWith (mkFilter [] []
                      (Some [("message", VArr [VOid "m0"]); ("age", VNum 3)])
                      None)))
           [("message", VArr [VOid "m0"]); ("age", VNum 3)] [VOid "m0"] appA
           eq_refl eq_refl eq_refl)).
Defined.

(** ** The drill block: the call to the drill plugin *)

Lemma has_key_lookup (k : string) (o : obj) :
  has_key k o = false -> lookup k o = VUndefined.
Proof.
  induction o as [|[k' v] o IH]; simpl; [reflexivity|].
  destruct (String.eqb k k'); simpl; [discriminate | exact IH].
Qed.

Lemma lookup_has_key (k : string) (o : obj) :
  lookup k o <> VUndefined -> has_key k o = true.
Proof.
  intros H. destruct (has_key k o) eqn:E; [reflexivity|].
  elim H. apply has_key_lookup. exact E.
Qed.

Lemma has_key_In (k : string) (o : obj) :
  has_key k o = true <-> In k (keys o).
Proof.
  induction o as [|[k' v] o IH]; simpl.
  - split; [discriminate | contradiction].
  - rewrite orb_true_iff, IH, String.eqb_eq. split; intros [H|H]; auto.
Qed.

Lemma keys_assign_present (k : string) (v : value) (o : obj) :
  has_key k o = true -> keys (assign k v o) = keys o.
Proof.
  induction o as [|[k' v'] o IH]; simpl; [discriminate|].
  destruct (String.eqb k k') eqn:E; simpl.
  - intros _. apply String.eqb_eq in E. subst. reflexivity.
  - intros H. f_equal. apply IH. exact H.
Qed.

Lemma has_key_assign (k k' : string) (v : value) (o : obj) :
  has_key k (assign k' v o) = has_key k o || String.eqb k k'.
Proof.
  induction o as [|[k2 v2] o IH]; simpl.
  - rewrite orb_false_r. reflexivity.
  - destruct (String.eqb k' k2) eqn:E; simpl.
    + apply String.eqb_eq in E. subst k2.
      destruct (String.eqb k k'); simpl; [reflexivity|].
      rewrite orb_false_r. reflexivity.
    + rewrite IH. rewrite orb_assoc. reflexivity.
Qed.

Lemma object_assign_absent (k : string) (source : obj) :
  has_key k source = false ->
  forall target, lookup k (object_assign target source) = lookup k target.
Proof.
  unfold object_assign.
  induction source as [|[k1 v1] source IH]; intros H target; simpl;
    [reflexivity|].
  simpl in H. apply orb_false_iff in H. destruct H as [Hk Hrest].
  rewrite (IH Hrest). apply lookup_assign_other. exact Hk.
Qed.

Lemma object_assign_present (k : string) (source : obj) :
  NoDup (keys source) ->
  has_key k source = true ->
  forall target, lookup k (object_assign target source) = lookup k source.
Proof.
  unfold object_assign.
  induction source as [|[k1 v1] source IH]; intros Hnd H target; simpl in *;
    [discriminate|].
  inversion Hnd as [|? ? Hnotin Hnd']; subst.
  destruct (String.eqb k k1) eqn:E.
  - apply String.eqb_eq in E. subst k1.
    assert (Hrest : has_key k source = false).
    { destruct (has_key k source) eqn:Hk; [|reflexivity].
      apply has_key_In in Hk. contradiction. }
    pose proof (object_assign_absent k source Hrest) as Habs.
    unfold object_assign in Habs. rewrite Habs. apply lookup_assign_same.
  - simpl in H. apply IH; assumption.
Qed.

(** X19: in its second branch, with the app loaded and a drill filter
    whose [queryObject] is an object, the drill block makes exactly one
    [fetchUsers] call. The [queryObject] it passes has no [chr] key, and
    that key is gone from the message's own drill filter as well. The
    [app_id] passed is the app's id, unless the drill filter has an
    [app_id] key of its own, which then takes its place. *)
Theorem steps_drill_fetch_params (W : World) (dr : DrillApi) (query qo : obj)
    (l : list value) (s : State) (a : App) :
  app s = Some a ->
  drill (filter (message s)) = Some query ->
  lookup "queryObject" query = VObj qo ->
  NoDup (keys query) ->
  trace (snd (steps_drill_fetch W dr query l s))
    = trace s ++ [DrillFetchUsers (drill_params W a query qo)]
  /\ drill (filter (message (snd (steps_drill_fetch W dr query l s))))
     = Some (assign "queryObject" (VObj (remove "chr" qo)) query)
  /\ prop "queryObject" (prop "qstring" (drill_params W a query qo))
     = VObj (remove "chr" qo)
  /\ has_key "chr" (remove "chr" qo) = false
  /\ prop "app_id" (prop "qstring" (drill_params W a query qo))
     = (if has_key "app_id" query then lookup "app_id" query
        else VStr (to_string (app_id a))).
Proof.
  intros Ha Hd Hqo Hnd.
  assert (Hhas : has_key "queryObject" query = true)
    by (apply lookup_has_key; rewrite Hqo; discriminate).
  assert (Hnd' : NoDup (keys (assign "queryObject" (VObj (remove "chr" qo))
                                     query)))
    by (rewrite keys_assign_present; assumption).
  split; [|split; [|split; [|split]]].
  - destruct s as [[id ps [gs cs us ds] uf] ap qu pr rs tr].
    simpl in Hd, Ha. subst ds ap.
    unfold steps_drill_fetch, drill_params. run_monad. rewrite Hqo. simpl.
    destruct (fetchUsers dr _) as [err uids].
    destruct (truthy err); reflexivity.
  - destruct s as [[id ps [gs cs us ds] uf] ap qu pr rs tr].
    simpl in Hd, Ha. subst ds ap.
    unfold steps_drill_fetch. run_monad. rewrite Hqo. simpl.
    destruct (fetchUsers dr _) as [err uids].
    destruct (truthy err); reflexivity.
  - unfold drill_params. simpl.
    rewrite object_assign_present; [apply lookup_assign_same | exact Hnd' |].
    rewrite has_key_assign, Hhas. reflexivity.
  - apply has_key_remove.
  - unfold drill_params. simpl.
    destruct (has_key "app_id" query) eqn:Happ.
    + rewrite object_assign_present; [| exact Hnd' |].
      * apply lookup_assign_other. reflexivity.
      * rewrite has_key_assign, Happ. reflexivity.
    + rewrite object_assign_absent; [reflexivity|].
      rewrite has_key_assign, Happ. reflexivity.
Qed.

Lemma steps_drill_fetch_params_witness :
  prop "queryObject"
       (prop "qstring"
          (drill_params historyWorld appA drillQueryA
             [("chr", VObj [("$in", VArr [VStr "c1"])]); ("up.age", VNum 3)]))
    = VObj [("up.age", VNum 3)]
  /\ prop "app_id"
       (prop "qstring"
          (drill_params historyWorld appA drillQueryA
             [("chr", VObj [("$in", VArr [VStr "c1"])]); ("up.age", VNum 3)]))
     = VStr "app1".
Proof.
  destruct (steps_drill_fetch_params historyWorld drillA drillQueryA
              [("chr", VObj [("$in", VArr [VStr "c1"])]); ("up.age", VNum 3)]
              []
              (stateA (msgWith (mkFilter [] [] None (Some drillQueryA))))
              appA eq_refl eq_refl eq_refl)
    as [_ [_ [Hqo [_ Happ]]]].
  - repeat constructor; simpl; intuition discriminate.
  - split; [exact Hqo | exact Happ].
Defined.

(** X20: the outcome of that branch is decided by what [fetchUsers] hands
    to its callback: an error rejects the compilation with that error; no
    error adds a restriction of [uid] to the ids found, or to no id at
    all when none were handed over. *)
Theorem steps_drill_fetch_outcome (W : World) (dr : DrillApi)
    (query qo : obj) (l : list value) (s : State) (a : App) :
  app s = Some a ->
  drill (filter (message s)) = Some query ->
  lookup "queryObject" query = VObj qo ->
  fst (steps_drill_fetch W dr query l s)
    = (let (err, uids) := fetchUsers dr (drill_params W a query qo) in
       if truthy err then Threw (Rejected err)
       else Returned
              (l ++ [match_step
                       (VObj [("uid",
                               VObj [("$in", if truthy uids then uids
                                             else VArr [])])])])).
Proof.
  intros Ha Hd Hqo.
  destruct s as [[id ps [gs cs us ds] uf] ap qu pr rs tr].
  simpl in Hd, Ha. subst ds ap.
  unfold steps_drill_fetch, drill_params. run_monad. rewrite Hqo. simpl.
  destruct (fetchUsers dr _) as [err uids].
  destruct (truthy err); reflexivity.
Qed.

Lemma steps_drill_fetch_outcome_witness :
  fst (steps_drill_fetch historyWorld drillA drillQueryA []
         (stateA (msgWith (mkFilter [] [] None (Some drillQueryA)))))
    = Returned [match_step
                  (VObj [("uid", VObj [("$in", VArr [VStr "u1"])])])].
Proof.
  exact (steps_drill_fetch_outcome historyWorld drillA drillQueryA
           [("chr", VObj [("$in", VArr [VStr "c1"])]); ("up.age", VNum 3)]
           []
           (stateA (msgWith (mkFilter [] [] None (Some drillQueryA))))
           appA eq_refl eq_refl eq_refl).
Defined.

(** X25: without a drill plugin the drill filter is skipped: whatever it
    holds, [steps] gives what the earlier blocks give, followed by the
    projection, and leaves the state as those blocks left it. *)
Theorem steps_drill_skipped (W : World) (project : value) (s : State) :
  drill_plugin W = None ->
  steps W project s
    = match steps_before_drill W s with
      | (Returned l, s1) =>
          (Returned (l ++ [project_step (default_project project)]), s1)
      | (Threw e, s1) => (Threw e, s1)
      end.
Proof.
  intros Hp. rewrite steps_split. unfold bind.
  destruct (steps_before_drill W s) as [[l|e] s1]; [|reflexivity].
  unfold steps_drill, bind, get, ret. rewrite Hp. simpl.
  destruct (drill (filter (message s1))); reflexivity.
Qed.

Lemma steps_drill_skipped_witness :
  steps quietWorld VUndefined
        (stateA (msgWith (mkFilter [] [] None (Some drillQueryA))))
    = (Returned [VObj [("$match",
                        VObj [("$or", VArr [VObj [("tkatoken", VBool true)]])])];
                 VObj [("$project", VObj [("uid", VNum 1)])]],
       stateA (msgWith (mkFilter [] [] None (Some drillQueryA)))).
Proof.
  apply (steps_drill_skipped quietWorld VUndefined
           (stateA (msgWith (mkFilter [] [] None (Some drillQueryA))))).
  reflexivity.
Defined.

(** X26: with the drill plugin there and the app loaded, a drill filter
    without a [queryObject] makes the drill block throw a TypeError, on
    the [delete] of its [chr] key, before any call to [fetchUsers]; the
    state is untouched. *)
Theorem steps_drill_no_queryObject (W : World) (dr : DrillApi) (query : obj)
    (l : list value) (s : State) (a : App) :
  drill_plugin W = Some dr ->
  drill (filter (message s)) = Some query ->
  has_key "queryObject" query = false ->
  app s = Some a ->
  steps_drill W l s
    = (Threw (TypeError "Cannot convert undefined or null to object"), s).
Proof.
  intros Hp Hd Hk Ha.
  unfold steps_drill. rewrite (bind_returned get _ s s s eq_refl).
  rewrite Hd, Hp, (has_key_lookup _ _ Hk).
  unfold steps_drill_fetch.
  rewrite (bind_returned _ _ _ _ _ (this_app_loaded s a Ha)).
  rewrite (has_key_lookup _ _ Hk). reflexivity.
Qed.

Lemma steps_drill_no_queryObject_witness :
  steps_drill historyWorld []
              (stateA (msgWith (mkFilter [] [] None
                                  (Some [("period", VStr "30days")]))))
    = (Threw (TypeError "Cannot convert undefined or null to object"),
       stateA (msgWith (mkFilter [] [] None
                          (Some [("period", VStr "30days")])))).
Proof.
  apply (steps_drill_no_queryObject historyWorld drillA
           [("period", VStr "30days")] []
           (stateA (msgWith (mkFilter [] [] None
                               (Some [("period", VStr "30days")]))))
           appA); reflexivity.
Defined.

(** ** The geo regions without the geo plugin *)

Lemma sim_ret {A : Type} (a : A) : sim (ret a) (ret a).
Proof. intro s. split; reflexivity. Qed.

Lemma sim_throw {A : Type} (e : error) : sim (@throw A e) (throw e).
Proof. intro s. split; reflexivity. Qed.

Lemma sim_bind {A B : Type} (c1 c2 : M A) (k1 k2 : A -> M B) :
  sim c1 c2 -> (forall a, sim (k1 a) (k2 a)) -> sim (bind c1 k1) (bind c2 k2).
Proof.
  intros Hc Hk s. unfold bind. destruct (Hc s) as [Hf Hs].
  destruct (c1 s) as [[a|e] s1]; destruct (c2 (without_geos s)) as [[a'|e'] s2];
    simpl in *; try discriminate; inversion Hf; subst.
  - apply Hk.
  - split; reflexivity.
Qed.

Lemma sim_get {B : Type} (k1 k2 : State -> M B) :
  (forall s0, sim (k1 s0) (k2 (without_geos s0))) ->
  sim (bind get k1) (bind get k2).
Proof. intros Hk s. unfold bind, get. apply Hk. Qed.

Lemma sim_emit (c : call) : sim (emit c) (emit c).
Proof. intro s. split; reflexivity. Qed.

Lemma sim_await {A : Type} (c : call) (r : outcome A) :
  sim (await c r) (await c r).
Proof.
  unfold await. apply sim_bind; [apply sim_emit|].
  intros _. destruct r; [apply sim_ret | apply sim_throw].
Qed.

Lemma sim_set_filter (fl : Filter) :
  sim (set_filter fl)
      (set_filter (mkFilter [] (cohorts fl) (user fl) (drill fl))).
Proof. intro s. split; reflexivity. Qed.

Ltac sim_expose :=
  unfold without_geos;
  cbn [message app queue processed responses trace
       _id platforms filter userFields geos cohorts user drill].

Lemma sim_this_app : sim this_app this_app.
Proof.
  unfold this_app. apply sim_get. intros s0. sim_expose.
  destruct (app s0); [apply sim_ret | apply sim_throw].
Qed.

Lemma sim_the_query : sim the_query the_query.
Proof.
  unfold the_query. apply sim_get. intros s0. sim_expose.
  destruct (user (filter (message s0))); apply sim_ret.
Qed.

Lemma sim_edit_query (g : obj -> obj) : sim (edit_query g) (edit_query g).
Proof.
  unfold edit_query. apply sim_get. intros s0. sim_expose.
  destruct (user (filter (message s0)));
    [apply (sim_set_filter (mkFilter _ _ _ _)) | apply sim_ret].
Qed.

Lemma sim_edit_drill (g : obj -> obj) : sim (edit_drill g) (edit_drill g).
Proof.
  unfold edit_drill. apply sim_get. intros s0. sim_expose.
  destruct (drill (filter (message s0)));
    [apply (sim_set_filter (mkFilter _ _ _ _)) | apply sim_ret].
Qed.

Ltac sim_step :=
  match goal with
  | |- sim (ret _) (ret _) => apply sim_ret
  | |- sim (throw _) (throw _) => apply sim_throw
  | |- sim (emit _) (emit _) => apply sim_emit
  | |- sim (await _ _) (await _ _) => apply sim_await
  | |- sim this_app this_app => apply sim_this_app
  | |- sim the_query the_query => apply sim_the_query
  | |- sim (edit_query _) (edit_query _) => apply sim_edit_query
  | |- sim (edit_drill _) (edit_drill _) => apply sim_edit_drill
  | |- sim (bind get _) (bind get _) => apply sim_get; intros; sim_expose
  | |- sim (bind _ _) (bind _ _) => apply sim_bind; [|intros]
  | |- sim (if ?b then _ else _) _ => destruct b
  | |- sim (match ?x with _ => _ end) _ => destruct x
  | |- sim (let (_, _) := ?x in _) _ => destruct x
  end.

Lemma sim_filterMessage (W : World) (min : value) :
  sim (filterMessage W min) (filterMessage W min).
Proof. unfold filterMessage. repeat sim_step. Qed.

Lemma sim_steps_cohorts (l : list value) :
  sim (steps_cohorts l) (steps_cohorts l).
Proof. unfold steps_cohorts. repeat sim_step. Qed.

Lemma sim_steps_user (W : World) (l : list value) :
  sim (steps_user W l) (steps_user W l).
Proof.
  unfold steps_user, steps_user_message, steps_user_geo.
  repeat (sim_step || apply sim_filterMessage).
Qed.

Lemma sim_steps_drill (W : World) (l : list value) :
  sim (steps_drill W l) (steps_drill W l).
Proof. unfold steps_drill, steps_drill_fetch. repeat sim_step. Qed.

Lemma sim_steps_geos (W : World) (l : list value) :
  geo_plugin W = None -> sim (steps_geos W l) (steps_geos W l).
Proof.
  intros Hg. unfold steps_geos. rewrite Hg.
  apply sim_get. intros s0. sim_expose. simpl.
  destruct (negb (is_nil (geos (filter (message s0))))); apply sim_ret.
Qed.

(** X21: without a geo plugin the geo regions of a filter have no effect
    on compilation: [steps] gives the same result, a list of steps or an
    error, as for the same message with no geo regions. *)
Theorem steps_geos_ignored (W : World) (project : value) (s : State) :
  geo_plugin W = None ->
  fst (steps W project s) = fst (steps W project (without_geos s)).
Proof.
  intros Hg.
  assert (H : sim (steps W project) (steps W project)).
  { unfold steps. apply sim_get. intros s0. sim_expose. simpl.
    apply sim_bind; [apply sim_steps_geos; exact Hg|]. intros l1.
    apply sim_bind; [apply sim_steps_cohorts|]. intros l2.
    apply sim_bind; [apply sim_steps_user|]. intros l3.
    apply sim_bind; [apply sim_steps_drill|]. intros l4.
    apply sim_ret. }
  apply H.
Qed.

Lemma steps_geos_ignored_witness :
  fst (steps quietWorld VUndefined
         (stateA (msgWith (mkFilter [VOid "g1"] [] (Some userQueryB) None))))
  = fst (steps quietWorld VUndefined
           (stateA (msgWith (mkFilter [] [] (Some userQueryB) None)))).
Proof.
  apply (steps_geos_ignored quietWorld VUndefined
           (stateA (msgWith (mkFilter [VOid "g1"] [] (Some userQueryB) None)))).
  reflexivity.
Defined.

(** * The scheduled trigger *)

Lemma filter_rules_kept (rules kept : list value) :
  filter_rules rules = Returned kept ->
  Forall (fun r => is_scheduled r = Returned true) kept
  /\ (forall r, In r kept <-> In r rules /\ is_scheduled r = Returned true).
Proof.
  revert kept. induction rules as [|r rules IH]; intros kept H; simpl in H.
  - inversion H; subst. split; [constructor|].
    intros r. simpl. tauto.
  - destruct (is_scheduled r) as [keep|e] eqn:Hr; [|discriminate].
    destruct (filter_rules rules) as [kept'|e]; [|discriminate].
    destruct (IH kept' eq_refl) as [Hall Hin].
    inversion H; subst. clear H. destruct keep.
    + split; [constructor; assumption|].
      intros x. simpl. rewrite Hin. split.
      * intros [<-|[H1 H2]]; auto.
      * intros [[<-|H1] H2]; auto.
    + split; [assumption|].
      intros x. rewrite Hin. simpl. split.
      * intros [H1 H2]; auto.
      * intros [[<-|H1] H2]; [congruence | auto].
Qed.

Lemma filter_rules_fixed (kept : list value) :
  Forall (fun r => is_scheduled r = Returned true) kept ->
  filter_rules kept = Returned kept.
Proof.
  induction 1 as [|r kept Hr _ IH]; simpl; [reflexivity|].
  rewrite Hr, IH. reflexivity.
Qed.

(** X22: when [syncRules] is given an array and succeeds, the trigger
    holds exactly the rules of the array whose trigger type is
    [ScheduledTrigger]; syncing again with the rules it holds changes
    nothing; its record of calls is untouched. *)
Theorem syncRules_keeps_scheduled (rules : list value)
    (this this' : ScheduledTrigger) :
  syncRules (VArr rules) this = (Returned tt, this') ->
  exists kept,
    _rules this' = VArr kept
    /\ (forall r, In r kept <-> In r rules /\ is_scheduled r = Returned true)
    /\ syncRules (_rules this') this' = (Returned tt, this')
    /\ piped this' = piped this /\ touched this' = touched this.
Proof.
  unfold syncRules. intros H.
  destruct (filter_rules rules) as [kept|e] eqn:Hf; [|discriminate].
  inversion H; subst. clear H. exists kept. simpl.
  destruct (filter_rules_kept rules kept Hf) as [Hall Hin].
  rewrite (filter_rules_fixed kept Hall).
  split; [reflexivity|]. split; [exact Hin|].
  split; [reflexivity|]. split; reflexivity.
Qed.

Lemma syncRules_keeps_scheduled_witness :
  exists kept,
    _rules (mkScheduled (VArr [ruleOf "ScheduledTrigger" "nightly"]) [] [])
      = VArr kept
    /\ (forall r, In r kept <->
          In r [ruleOf "APIEndPointTrigger" "hook";
                ruleOf "ScheduledTrigger" "nightly"]
          /\ is_scheduled r = Returned true)
    /\ syncRules
         (_rules (mkScheduled (VArr [ruleOf "ScheduledTrigger" "nightly"]) [] []))
         (mkScheduled (VArr [ruleOf "ScheduledTrigger" "nightly"]) [] [])
       = (Returned tt,
          mkScheduled (VArr [ruleOf "ScheduledTrigger" "nightly"]) [] [])
    /\ piped (mkScheduled (VArr [ruleOf "ScheduledTrigger" "nightly"]) [] [])
       = piped (mkScheduled (VArr []) [] [])
    /\ touched (mkScheduled (VArr [ruleOf "ScheduledTrigger" "nightly"]) [] [])
       = touched (mkScheduled (VArr []) [] []).
Proof.
  apply (syncRules_keeps_scheduled
           [ruleOf "APIEndPointTrigger" "hook";
            ruleOf "ScheduledTrigger" "nightly"]
           (mkScheduled (VArr []) [] [])).
  reflexivity.
Defined.

(** X23: [syncRules] leaves the trigger exactly as it was when its
    argument is not an array, and also when a record of the array has no
    [trigger], in which case it throws. *)
Theorem syncRules_unchanged (rules : value) (this : ScheduledTrigger) :
  (forall l, rules <> VArr l)
  \/ (exists l r, rules = VArr l /\ In r l /\ prop "trigger" r = VUndefined) ->
  snd (syncRules rules this) = this.
Proof.
  intros [Hna|[l [r [-> [Hin Hr]]]]].
  - destruct rules as [| | | | | |l0|]; try reflexivity.
    elim (Hna l0). reflexivity.
  - unfold syncRules.
    assert (Hthrow : exists e, filter_rules l = Threw e).
    { induction l as [|x l IH]; [contradiction|]. simpl.
      destruct Hin as [->|Hin].
      - unfold is_scheduled. rewrite Hr.
        destruct r; eexists; reflexivity.
      - destruct (is_scheduled x); [|eexists; reflexivity].
        destruct (IH Hin) as [e He]. rewrite He. eexists. reflexivity. }
    destruct Hthrow as [e He]. rewrite He. reflexivity.
Qed.

Lemma syncRules_unchanged_witness :
  snd (syncRules (VArr [ruleOf "ScheduledTrigger" "nightly";
                        VObj [("name", VStr "broken")]])
                 (mkScheduled (VArr []) [] []))
  = mkScheduled (VArr []) [] [].
Proof.
  apply (syncRules_unchanged
           (VArr [ruleOf "ScheduledTrigger" "nightly";
                  VObj [("name", VStr "broken")]])
           (mkScheduled (VArr []) [] [])).
  right. eexists. exists (VObj [("name", VStr "broken")]).
  split; [reflexivity|]. split; [right; left; reflexivity | reflexivity].
Defined.

(** X24: [process] touches the pipeline and the rule's trigger time only
    for a feed that carries a rule and is not a mock: without a rule it
    returns false, for a mock it returns the feed itself, and in both
    cases the trigger is as before; otherwise it records the trigger
    time of the rule's id, sends [{rule}] to the pipeline once, and
    returns that object. *)
Theorem process_effects (ob : value) (this : ScheduledTrigger) :
  ob <> VUndefined -> ob <> VNull ->
  (truthy (prop "rule" ob) = false ->
     process ob this = (Returned (VBool false), this))
  /\ (truthy (prop "rule" ob) = true -> prop "is_mock" ob = VBool true ->
        process ob this = (Returned ob, this))
  /\ (truthy (prop "rule" ob) = true ->
      value_eqb (prop "is_mock" ob) (VBool true) = false ->
        process ob this
        = (Returned (VObj [("rule", prop "rule" ob)]),
           mkScheduled (_rules this)
                       (piped this ++ [VObj [("rule", prop "rule" ob)]])
                       (touched this ++ [prop "_id" (prop "rule" ob)]))).
Proof.
  intros H1 H2. unfold process.
  destruct ob; try contradiction; repeat split; intros Hr;
    try (rewrite Hr; simpl; reflexivity);
    try (intros Hm; rewrite Hr, Hm; simpl; reflexivity).
Qed.

Lemma process_effects_witness :
  process (VObj [("rule", ruleOf "ScheduledTrigger" "nightly");
                 ("is_mock", VBool true)])
          (mkScheduled (VArr []) [] [])
  = (Returned (VObj [("rule", ruleOf "ScheduledTrigger" "nightly");
                     ("is_mock", VBool true)]),
     mkScheduled (VArr []) [] []).
Proof.
  refine (proj1 (proj2 (process_effects
            (VObj [("rule", ruleOf "ScheduledTrigger" "nightly");
                   ("is_mock", VBool true)])
            (mkScheduled (VArr []) [] []) _ _)) eq_refl eq_refl);
    discriminate.
Defined.
